(** * A register machine with a memoising control unit

    Shallow embedding of [script.py]: the class [CPU] with its register
    list, its result cache (a Python dict keyed by the instruction name and
    the two operand values), the accessors [load] and [get_register], the
    control unit [control_unit], the dispatcher [_alu_dispatch] and the
    arithmetic and logic handlers it routes to.

    Registers hold Python numbers: arbitrary precision integers, binary64
    floats and complex numbers, the last two with the identity of their
    object.  Exceptions, the mutation of the machine and the lines written
    by [print] are made explicit by a small monad over the machine state. *)

From Stdlib Require Import ZArith QArith Qabs Qpower Lia Lqa Bool.
From Stdlib Require Import SpecFloat.
From stdpp Require Import base list strings pretty.

Local Open Scope Z_scope.

(** ** Python values *)

(** The binary operators of Python the machine uses on numbers. *)
Inductive operator := OpAdd | OpSub | OpMul | OpTrueDiv | OpMod | OpPow.

(** A register holds an [int], a [float] (IEEE 754 binary64, in the
    standard library's specification format) or a [complex] (a pair of
    floats).

    A dict finds a key by identity before it compares it, and a NaN equals
    nothing, itself included: which float or complex object a register
    holds matters.  Such an object is therefore named by its [origin]: it
    is either an object the caller of the machine made, or the object an
    operator made from two operand objects.  The control unit applies an
    operator to given operand objects at most once (the result is cached
    and found again), so that an origin names one object.  Integers need no
    identity: an integer equals every integer of the same value. *)
Inductive value :=
  | VInt (n : Z)
  | VFloat (o : origin) (f : spec_float)
  | VComplex (o : origin) (re im : spec_float)
with origin :=
  | Loaded (n : nat)
  | Result (op : operator) (x y : value).

#[global] Instance spec_float_eq_dec : EqDecision spec_float.
Proof. solve_decision. Defined.

#[global] Instance operator_eq_dec : EqDecision operator.
Proof. solve_decision. Defined.

Fixpoint value_eq_dec' (x y : value) : {x = y} + {x <> y}
with origin_eq_dec' (x y : origin) : {x = y} + {x <> y}.
Proof.
  - decide equality; solve [apply Z.eq_dec | apply spec_float_eq_dec].
  - decide equality; solve [apply Nat.eq_dec | apply operator_eq_dec].
Defined.

#[global] Instance value_eq_dec : EqDecision value := value_eq_dec'.

(** Exceptions.  [ZeroDivisionError] and [OverflowError] are the two
    subclasses of Python's [ArithmeticError] that the built-in arithmetic
    raises; [ValueError] is what the source itself raises. *)
Inductive arith_error :=
  | ZeroDivisionError (msg : string)
  | OverflowError (msg : string).

Inductive exn :=
  | ValueError (msg : string)
  | IndexError (msg : string)
  | KeyError (k : string * value * value)
  | TypeError (msg : string)
  | ArithmeticError (e : arith_error).

Inductive result (A : Type) :=
  | Ok (a : A)
  | Raise (e : exn).
Arguments Ok {A} a.
Arguments Raise {A} e.

(** ** Numeric comparison

    Python compares numbers of different types by their exact mathematical
    value: [1 == 1.0] and [0 == -0.0] hold, and an [int] equals a [float]
    only when the float is exactly that integer. *)
Inductive xreal :=
  | Fin (q : Q)
  | Inf (neg : bool)
  | NaN.

Definition float_val (f : spec_float) : xreal :=
  match f with
  | S754_zero _ => Fin 0%Q
  | S754_infinity s => Inf s
  | S754_nan => NaN
  | S754_finite s m e =>
      let n := if s then Z.neg m else Z.pos m in
      match e with
      | Z.neg k => Fin (Qmake n (2 ^ k)%positive)
      | _ => Fin (Qmake (n * 2 ^ e) 1)
      end
  end.

(** IEEE equality on extended reals: a NaN equals nothing. *)
Definition xreal_eqb (x y : xreal) : bool :=
  match x, y with
  | Fin p, Fin q => Qeq_bool p q
  | Inf a, Inf b => Bool.eqb a b
  | _, _ => false
  end.

(** Real and imaginary part of a number. *)
Definition value_num (v : value) : xreal * xreal :=
  match v with
  | VInt n => (Fin (inject_Z n), Fin 0%Q)
  | VFloat _ f => (float_val f, Fin 0%Q)
  | VComplex _ re im => (float_val re, float_val im)
  end.

(** [x == y] *)
Definition py_eq (x y : value) : bool :=
  xreal_eqb (value_num x).1 (value_num y).1 &&
  xreal_eqb (value_num x).2 (value_num y).2.

(** [x is y or x == y], the test a dict lookup applies to each component of
    a tuple key.  Two floats are the same object when they have the same
    origin: the key built from a register that holds a NaN is found again
    as long as the register holds that object, and a NaN made anew is
    not. *)
Definition py_is_or_eq (x y : value) : bool :=
  bool_decide (x = y) || py_eq x y.

(** ** The cache: a dict keyed by [(instruction, val_a, val_b)] *)

Definition key : Type := string * value * value.

Definition key_eqb (k1 k2 : key) : bool :=
  match k1, k2 with
  | (i1, a1, b1), (i2, a2, b2) =>
      String.eqb i1 i2 && py_is_or_eq a1 a2 && py_is_or_eq b1 b2
  end.

(** A dict as the list of its items in insertion order. *)
Definition dict : Type := list (key * value).

(** The lookup behind [k in d] and [d[k]]: the first (and, in a dict, only)
    item whose key equals [k]. *)
Fixpoint dict_get (d : dict) (k : key) : option value :=
  match d with
  | [] => None
  | (k', v) :: d' => if key_eqb k k' then Some v else dict_get d' k
  end.

(** [k in d] *)
Definition dict_contains (d : dict) (k : key) : bool :=
  match dict_get d k with Some _ => true | None => false end.

(** [d[k]] *)
Definition dict_getitem (d : dict) (k : key) : result value :=
  match dict_get d k with Some v => Ok v | None => Raise (KeyError k) end.

(** [d[k] = v]: replace the value of an equal key, else append a new item. *)
Fixpoint dict_set (d : dict) (k : key) (v : value) : dict :=
  match d with
  | [] => [(k, v)]
  | (k', v') :: d' =>
      if key_eqb k k' then (k', v) :: d' else (k', v') :: dict_set d' k v
  end.

(** Number of items stored under a key equal to [k]. *)
Fixpoint dict_count (d : dict) (k : key) : nat :=
  match d with
  | [] => 0%nat
  | (k', _) :: d' => ((if key_eqb k k' then 1 else 0) + dict_count d' k)%nat
  end.

(** The invariant of a dict: no two items have equal keys. *)
Fixpoint dict_wf (d : dict) : Prop :=
  match d with
  | [] => True
  | (k, _) :: d' => dict_get d' k = None /\ dict_wf d'
  end.

(** ** Python list indexing

    An index [i] with [0 <= i < len] addresses position [i]; a negative
    index [-len <= i < 0] addresses position [i + len]; any other index
    raises [IndexError]. *)
Definition list_index (len : nat) (i : Z) : option nat :=
  if (0 <=? i) && (i <? Z.of_nat len) then Some (Z.to_nat i)
  else if (- Z.of_nat len <=? i) && (i <? 0) then Some (Z.to_nat (i + Z.of_nat len))
  else None.

Definition list_getitem (l : list value) (i : Z) : result value :=
  match list_index (length l) i with
  | Some n =>
      match l !! n with
      | Some v => Ok v
      | None => Raise (IndexError "list index out of range")
      end
  | None => Raise (IndexError "list index out of range")
  end.

Definition list_setitem (l : list value) (i : Z) (v : value) : result (list value) :=
  match list_index (length l) i with
  | Some n => Ok (<[n := v]> l)
  | None => Raise (IndexError "list assignment index out of range")
  end.

(** ** The machine state and its monad *)

(** The two attributes of a [CPU] object. *)
Record CPU := mkCPU {
  registers : list value;
  cache : dict
}.

(** The lines [control_unit] prints. *)
Inductive event :=
  | CacheHit (instruction : string) (val_a val_b : value)
  | CacheMiss (instruction : string) (val_a val_b : value).

(** A method call runs on a machine, leaves a machine behind (also when it
    raises: mutations made before the exception stay), prints lines and
    either returns or raises. *)
Definition M (A : Type) : Type := CPU -> result A * CPU * list event.

Definition ret {A} (a : A) : M A := fun s => (Ok a, s, []).

Definition bind {A B} (m : M A) (f : A -> M B) : M B :=
  fun s =>
    match m s with
    | (Ok a, s1, out1) =>
        match f a s1 with
        | (r, s2, out2) => (r, s2, out1 ++ out2)
        end
    | (Raise e, s1, out1) => (Raise e, s1, out1)
    end.

Definition lift {A} (r : result A) : M A := fun s => (r, s, []).
Definition raise {A} (e : exn) : M A := lift (Raise e).
Definition print (ev : event) : M unit := fun s => (Ok tt, s, [ev]).
Definition get_registers : M (list value) := fun s => (Ok (registers s), s, []).
Definition set_registers (l : list value) : M unit :=
  fun s => (Ok tt, mkCPU l (cache s), []).
Definition get_cache : M dict := fun s => (Ok (cache s), s, []).
Definition set_cache (d : dict) : M unit :=
  fun s => (Ok tt, mkCPU (registers s) d, []).

Declare Scope py_scope.
Delimit Scope py_scope with py.
Notation "x <- m ;; k" := (bind m (fun x => k))
  (at level 100, m at next level, right associativity) : py_scope.
Notation "m ;; k" := (bind m (fun _ => k))
  (at level 100, right associativity) : py_scope.

Definition result_bind {A B} (r : result A) (f : A -> result B) : result B :=
  match r with
  | Ok a => f a
  | Raise e => Raise e
  end.

(** [CPU()] *)
Definition CPU_init : CPU := mkCPU (replicate 4 (VInt 0)) [].

(** ** Arithmetic of the Python runtime *)

Definition type_name (v : value) : string :=
  match v with
  | VInt _ => "int"
  | VFloat _ _ => "float"
  | VComplex _ _ _ => "complex"
  end.

Definition unsupported (op : string) (x y : value) : exn :=
  TypeError ("unsupported operand type(s) for " ++ op ++ ": '"
             ++ type_name x ++ "' and '" ++ type_name y ++ "'").

(** [n / d] for [0 < d], rounded to an integer: to the nearest one, and to
    the even one of the two when [n / d] is half way between them. *)
Definition round_half_even (n d : Z) : Z :=
  let q := n / d in
  let r := n mod d in
  if 2 * r <? d then q
  else if d <? 2 * r then q + 1
  else if Z.even q then q else q + 1.

(** The binade of the quotient of two positive integers: the [l] with
    [2 ** l <= a / b < 2 ** (l + 1)]. *)
Definition quotient_log2 (a b : Z) : Z :=
  let d := Z.log2 a - Z.log2 b in
  if (if 0 <=? d then b * 2 ^ d <=? a else b <=? a * 2 ^ (- d)) then d else d - 1.

(** Numerator and denominator of [(a / b) / 2 ** e]. *)
Definition scaled (a b e : Z) : Z * Z :=
  if 0 <=? e then (a, b * 2 ^ e) else (a * 2 ^ (- e), b).

(** The exponent of the unit in the last place of a float in the binade of
    [a / b]: 53 bits of mantissa, and no exponent below that of the
    subnormal floats. *)
Definition quotient_exponent (a b : Z) : Z :=
  Z.max (quotient_log2 a b - 52) (-1074).

(** [a / b] in units of [2 ** quotient_exponent a b], rounded. *)
Definition quotient_mantissa (a b : Z) : Z :=
  let (n, d) := scaled a b (quotient_exponent a b) in round_half_even n d.

(** The quotient of two positive integers rounded to a float of the given
    sign, if it is not beyond the largest float: the mantissa of 53 bits
    (less for a subnormal float) and the exponent of the unit in the last
    place. *)
Definition round_quotient (negate : bool) (a b : Z) : option spec_float :=
  let e := quotient_exponent a b in
  let n := quotient_mantissa a b in
  let (m, e) := if n =? 2 ^ 53 then (2 ^ 52, e + 1) else (n, e) in
  match m with
  | Z.pos p => if e <=? 971 then Some (S754_finite negate p e) else None
  | _ => Some (S754_zero negate)
  end.

(** Conversion of an [int] to a [float]: rounded to the nearest float and
    half way to the even one; an [OverflowError] when the integer rounds
    beyond the largest float. *)
Definition int_to_float (n : Z) : result spec_float :=
  if n =? 0 then Ok (S754_zero false)
  else
    match round_quotient (n <? 0) (Z.abs n) 1 with
    | Some f => Ok f
    | None =>
        Raise (ArithmeticError (OverflowError "int too large to convert to float"))
    end.

(** The float an [int] or [float] operand of a float operation stands for;
    a [complex] has none. *)
Definition to_float (v : value) : option (result spec_float) :=
  match v with
  | VInt n => Some (int_to_float n)
  | VFloat _ f => Some (Ok f)
  | VComplex _ _ _ => None
  end.

(** [a / b] on two [int]s.  CPython divides the exact integers and rounds
    the quotient once, to the nearest float and half way to the even one;
    a quotient of zero has the sign of the divisor, a quotient that rounds
    beyond the largest float is an [OverflowError]. *)
Definition int_truediv (a b : Z) : result spec_float :=
  if b =? 0 then Raise (ArithmeticError (ZeroDivisionError "division by zero"))
  else
    let negate := xorb (a <? 0) (b <? 0) in
    if a =? 0 then Ok (S754_zero negate)
    else
      match round_quotient negate (Z.abs a) (Z.abs b) with
      | Some f => Ok f
      | None =>
          Raise (ArithmeticError
                   (OverflowError "integer division result too large for a float"))
      end.

Definition float_is_zero (f : spec_float) : bool :=
  match f with S754_zero _ => true | _ => false end.

Definition float_truediv (x y : spec_float) : result spec_float :=
  if float_is_zero y
  then Raise (ArithmeticError (ZeroDivisionError "float division by zero"))
  else Ok (SFdiv 53 1024 x y).

(** The object an operator returns is a new one. *)
Definition with_origin (o : origin) (v : value) : value :=
  match v with
  | VInt n => VInt n
  | VFloat _ f => VFloat o f
  | VComplex _ re im => VComplex o re im
  end.

(** ** The interpreter

    What the program leaves to the interpreter it runs on:
    - the arithmetic for which CPython calls the C library, [%] and [**]
      on floats ([**] on an [int] with a negative exponent is computed on
      floats too), and all arithmetic on complex numbers; it is a function
      of its operands and raises nothing but an [ArithmeticError];
    - the limit on the number of digits of an [int] that is converted to a
      string, [sys.get_int_max_str_digits()]: 0 for none, else 640 or more
      (4300 unless it is set). *)
Record platform := {
  c_arith : operator -> value -> value -> value + arith_error;
  int_max_str_digits : Z
}.

(** A platform with the default digit limit, on which every call to the C
    library overflows.  It serves to run the machine on integers, where no
    such call occurs. *)
Definition c_overflow : platform :=
  {| c_arith := fun _ _ _ => inr (OverflowError "Numerical result out of range");
     int_max_str_digits := 4300 |}.

(** The machine of the driver program after its two loads, and after its
    first addition. *)
Definition cpu_loaded : CPU := mkCPU [VInt 10; VInt 5; VInt 0; VInt 0] [].

Definition cpu_added : CPU :=
  mkCPU [VInt 10; VInt 5; VInt 15; VInt 0] [(("ADD", VInt 10, VInt 5), VInt 15)].

(** The float 10.0, and the machine after the first addition with 10.0
    loaded into register 3. *)
Definition float_ten : spec_float := S754_finite false 5629499534213120 (-49).

Definition cpu_float_loaded : CPU :=
  mkCPU [VInt 10; VInt 5; VInt 15; VFloat (Loaded 0) float_ten]
    [(("ADD", VInt 10, VInt 5), VInt 15)].

(** A machine with an integer of 4301 digits in register 0. *)
Definition cpu_big : CPU := mkCPU [VInt (10 ^ 4300); VInt 0; VInt 0; VInt 0] [].



Section Machine.

(** The machine is verified for every interpreter. *)
Variable interpreter : platform.

(** The conversion of an [int] to its decimal string, of which only the
    failure is kept: CPython refuses an [int] of more digits than the limit
    (and of more than 640 digits), when there is a limit. *)
Definition str_int (n : Z) : result unit :=
  if (Z.abs n <? 10 ^ 640)
     || (int_max_str_digits interpreter <=? 0)
     || (Z.abs n <? 10 ^ int_max_str_digits interpreter)
  then Ok tt
  else Raise (ValueError
                ("Exceeds the limit (" ++ pretty (int_max_str_digits interpreter)
                 ++ " digits) for integer string conversion; "
                 ++ "use sys.set_int_max_str_digits() to increase the limit")).

(** The conversion of a number to the text an f-string inserts; a float or
    a complex always has one. *)
Definition format_value (v : value) : result unit :=
  match v with
  | VInt n => str_int n
  | VFloat _ _ | VComplex _ _ _ => Ok tt
  end.

(** The f-string of the two lines [control_unit] prints: both operands
    are formatted, the first first, before anything is printed. *)
Definition format_operands (val_a val_b : value) : result unit :=
  result_bind (format_value val_a) (fun _ => format_value val_b).

Definition c_call (op : operator) (x y : value) : result value :=
  match c_arith interpreter op x y with
  | inl v => Ok (with_origin (Result op x y) v)
  | inr e => Raise (ArithmeticError e)
  end.

(** An operation on operands of which at least one is not an [int]:
    on complex numbers it is the C library's, otherwise both operands are
    taken as floats. *)
Definition float_op (op : operator)
    (f : spec_float -> spec_float -> result spec_float) (x y : value) : result value :=
  match to_float x, to_float y with
  | Some rx, Some ry =>
      result_bind rx (fun fx =>
      result_bind ry (fun fy =>
      result_bind (f fx fy) (fun fz => Ok (VFloat (Result op x y) fz))))
  | _, _ => c_call op x y
  end.

(** [x + y] *)
Definition py_add (x y : value) : result value :=
  match x, y with
  | VInt a, VInt b => Ok (VInt (a + b))
  | _, _ => float_op OpAdd (fun fx fy => Ok (SFadd 53 1024 fx fy)) x y
  end.

(** [x - y] *)
Definition py_sub (x y : value) : result value :=
  match x, y with
  | VInt a, VInt b => Ok (VInt (a - b))
  | _, _ => float_op OpSub (fun fx fy => Ok (SFsub 53 1024 fx fy)) x y
  end.

(** [x * y] *)
Definition py_mul (x y : value) : result value :=
  match x, y with
  | VInt a, VInt b => Ok (VInt (a * b))
  | _, _ => float_op OpMul (fun fx fy => Ok (SFmul 53 1024 fx fy)) x y
  end.

(** [x / y] *)
Definition py_truediv (x y : value) : result value :=
  match x, y with
  | VInt a, VInt b =>
      result_bind (int_truediv a b) (fun fz => Ok (VFloat (Result OpTrueDiv x y) fz))
  | _, _ => float_op OpTrueDiv float_truediv x y
  end.

(** [x % y]: on [int]s the remainder of the floor division, which has the
    sign of the divisor; not defined on complex numbers. *)
Definition py_mod (x y : value) : result value :=
  match x, y with
  | VInt a, VInt b =>
      if b =? 0
      then Raise (ArithmeticError (ZeroDivisionError "integer modulo by zero"))
      else Ok (VInt (a mod b))
  | VComplex _ _ _, _ | _, VComplex _ _ _ => Raise (unsupported "%" x y)
  | _, _ => c_call OpMod x y
  end.

(** [x ** y]: exact on an [int] with a non-negative [int] exponent. *)
Definition py_pow (x y : value) : result value :=
  match x, y with
  | VInt a, VInt b => if 0 <=? b then Ok (VInt (a ^ b)) else c_call OpPow x y
  | _, _ => c_call OpPow x y
  end.

(** [x & y] and [x | y]: defined on [int]s only, in two's complement of
    unbounded width. *)
Definition py_and (x y : value) : result value :=
  match x, y with
  | VInt a, VInt b => Ok (VInt (Z.land a b))
  | _, _ => Raise (unsupported "&" x y)
  end.

Definition py_or (x y : value) : result value :=
  match x, y with
  | VInt a, VInt b => Ok (VInt (Z.lor a b))
  | _, _ => Raise (unsupported "|" x y)
  end.

(** ** The ALU operations of [CPU] *)

Definition add (a b : value) : result value := py_add a b.

Definition sub (a b : value) : result value := py_sub a b.

Definition mul (a b : value) : result value := py_mul a b.

Definition div (a b : value) : result value :=
  if py_eq b (VInt 0) then Raise (ValueError "Can't divide by zero")
  else py_truediv a b.

Definition mod_ (a b : value) : result value :=
  if py_eq b (VInt 0) then Raise (ValueError "Can't divide by zero")
  else py_mod a b.

Definition pow (a b : value) : result value := py_pow a b.

Definition logi_and (a b : value) : result value := py_and a b.

Definition logi_or (a b : value) : result value := py_or a b.

(** [CPU._alu_dispatch] *)
Definition _alu_dispatch (instruction : string) (a b : value) : result value :=
  if String.eqb instruction "ADD" then add a b
  else if String.eqb instruction "SUB" then sub a b
  else if String.eqb instruction "MUL" then mul a b
  else if String.eqb instruction "DIV" then div a b
  else if String.eqb instruction "MOD" then mod_ a b
  else if String.eqb instruction "POW" then pow a b
  else if String.eqb instruction "AND" then logi_and a b
  else if String.eqb instruction "OR" then logi_or a b
  else Raise (ValueError ("Unknown instruction: " ++ instruction)).

(** ** Register access and the control unit *)

Local Open Scope py_scope.

(** [CPU.load] *)
Definition load (reg_index : Z) (v : value) : M unit :=
  regs <- get_registers ;;
  if (0 <=? reg_index) && (reg_index <? Z.of_nat (length regs))
  then regs' <- lift (list_setitem regs reg_index v) ;; set_registers regs'
  else raise (ValueError "Invalid register index").

(** [CPU.get_register] *)
Definition get_register (reg_index : Z) : M value :=
  regs <- get_registers ;;
  if (0 <=? reg_index) && (reg_index <? Z.of_nat (length regs))
  then lift (list_getitem regs reg_index)
  else raise (ValueError "Invalid register index").

(** [CPU.control_unit]; [dest_reg_index] is [None] when the caller gives
    no destination. *)
Definition control_unit (instruction : string) (reg_a_index reg_b_index : Z)
    (dest_reg_index : option Z) : M value :=
  regs <- get_registers ;;
  val_a <- lift (list_getitem regs reg_a_index) ;;
  val_b <- lift (list_getitem regs reg_b_index) ;;
  let cache_key := (instruction, val_a, val_b) in
  c <- get_cache ;;
  res <- (if dict_contains c cache_key
          then
            lift (format_operands val_a val_b) ;;
            print (CacheHit instruction val_a val_b) ;;
            c' <- get_cache ;;
            lift (dict_getitem c' cache_key)
          else
            lift (format_operands val_a val_b) ;;
            print (CacheMiss instruction val_a val_b) ;;
            r <- lift (_alu_dispatch instruction val_a val_b) ;;
            c' <- get_cache ;;
            set_cache (dict_set c' cache_key r) ;;
            ret r) ;;
  let target_reg :=
    match dest_reg_index with Some d => d | None => reg_a_index end in
  regs' <- get_registers ;;
  regs'' <- lift (list_setitem regs' target_reg res) ;;
  set_registers regs'' ;;
  ret res.

(** The register [control_unit] writes its result to. *)
Definition target_reg (reg_a_index : Z) (dest_reg_index : option Z) : Z :=
  match dest_reg_index with Some d => d | None => reg_a_index end.

(** ** Machine states and their invariants *)

Definition state_of {A} (o : result A * CPU * list event) : CPU := o.1.2.

(** The states a machine goes through: a fresh machine, and the machine
    left behind by any call of [load], [get_register] or [control_unit],
    whether it returns or raises. *)
Inductive reachable : CPU -> Prop :=
  | reach_init : reachable CPU_init
  | reach_load s reg_index v :
      reachable s -> reachable (state_of (load reg_index v s))
  | reach_get_register s reg_index :
      reachable s -> reachable (state_of (get_register reg_index s))
  | reach_control_unit s instruction reg_a_index reg_b_index dest_reg_index :
      reachable s ->
      reachable (state_of (control_unit instruction reg_a_index reg_b_index
                             dest_reg_index s)).

(** The instruction names [_alu_dispatch] routes. *)
Definition dispatched : list string :=
  ["ADD"; "SUB"; "MUL"; "DIV"; "MOD"; "POW"; "AND"; "OR"].

(** Every item of the cache holds what the ALU computes for its key. *)
Definition cache_sound (d : dict) : Prop :=
  forall instruction a b r,
    ((instruction, a, b), r) ∈ d ->
    instruction ∈ dispatched /\ _alu_dispatch instruction a b = Ok r.

(** What the three methods keep: the four registers, a cache without
    duplicate keys, and cache items that agree with the ALU. *)
Definition invariant (s : CPU) : Prop :=
  length (registers s) = 4%nat /\ dict_wf (cache s) /\ cache_sound (cache s).

(** The outcomes that are a [ValueError], the exception of the source's
    own [raise] statements. *)
Definition is_ValueError {A} (r : result A) : Prop :=
  match r with Raise (ValueError _) => True | _ => False end.

(** Neither an [int] nor a [float]. *)
Definition is_complex (v : value) : bool :=
  match v with VComplex _ _ _ => true | _ => false end.

(** The reading of "DIV produces the exact rational quotient a / b": the
    outcome is a number whose value is the rational number [a / b]. *)
Definition is_exact_quotient (a b : Z) (r : result value) : Prop :=
  exists v q,
    r = Ok v /\ value_num v = (Fin q, Fin 0%Q) /\
    (q == inject_Z a / inject_Z b)%Q.

(** The rational numbers that are floats: [m * 2 ** e] with a mantissa of
    at most 53 bits and an exponent from that of the subnormal floats to
    that of the largest float. *)
Definition binary64 (y : Q) : Prop :=
  exists m e : Z,
    Z.abs m < 2 ^ 53 /\ -1074 <= e <= 971 /\ (y == inject_Z m * 2 ^ e)%Q.

Definition float_mantissa (f : spec_float) : Z :=
  match f with S754_finite _ m _ => Z.pos m | _ => 0 end.

Definition float_sign (f : spec_float) : bool :=
  match f with
  | S754_zero s | S754_infinity s | S754_finite s _ _ => s
  | S754_nan => false
  end.

(** [f] is the rational number [q] rounded to a float: a float in its
    canonical form, none nearer to [q], and of an even mantissa when
    another float is as near. *)
Definition is_rounding (q : Q) (f : spec_float) : Prop :=
  valid_binary 53 1024 f = true /\
  exists x, float_val f = Fin x /\
    forall y, binary64 y ->
      (Qabs (x - q) <= Qabs (y - q))%Q /\
      ((Qabs (x - q) == Qabs (y - q))%Q -> ~ (y == x)%Q ->
       Z.even (float_mantissa f) = true).

(** [t] is the machine a sequence of calls of [load], [get_register] and
    [control_unit] leaves, started on the machine [s]. *)
Inductive reaches (s : CPU) : CPU -> Prop :=
  | reaches_refl : reaches s s
  | reaches_load t reg_index v :
      reaches s t -> reaches s (state_of (load reg_index v t))
  | reaches_get_register t reg_index :
      reaches s t -> reaches s (state_of (get_register reg_index t))
  | reaches_control_unit t instruction reg_a_index reg_b_index dest_reg_index :
      reaches s t ->
      reaches s (state_of (control_unit instruction reg_a_index reg_b_index
                             dest_reg_index t)).

(** An [int]. *)
Definition is_int (v : value) : bool :=
  match v with VInt _ => true | _ => false end.

(** All operands in the keys of a cache are [int]s. *)
Definition int_keys (d : dict) : Prop :=
  forall instruction a b r,
    ((instruction, a, b), r) ∈ d -> is_int a = true /\ is_int b = true.

(** A machine that holds integers only: in its registers, and in the keys
    and values of its cache. *)
Definition int_item (kv : key * value) : Prop :=
  match kv with
  | ((_, a, b), r) => is_int a = true /\ is_int b = true /\ is_int r = true
  end.

Definition int_machine (s : CPU) : Prop :=
  Forall (fun v => is_int v = true) (registers s) /\ Forall int_item (cache s).

(** ** Equality of keys is an equivalence *)

Lemma xreal_eqb_sym x y : xreal_eqb x y = xreal_eqb y x.
Proof.
  destruct x as [p| [] |], y as [q| [] |]; simpl; try reflexivity.
  apply eq_true_iff_eq. rewrite !Qeq_bool_iff. split; intros H; now symmetry.
Qed.

Lemma xreal_eqb_trans x y z :
  xreal_eqb x y = true -> xreal_eqb y z = true -> xreal_eqb x z = true.
Proof.
  destruct x as [p| [] |], y as [q| [] |], z as [r| [] |]; simpl; try congruence.
  rewrite !Qeq_bool_iff. intros H1 H2. now rewrite H1.
Qed.

Lemma py_eq_sym x y : py_eq x y = py_eq y x.
Proof.
  unfold py_eq.
  now rewrite (xreal_eqb_sym (value_num x).1), (xreal_eqb_sym (value_num x).2).
Qed.

Lemma py_eq_trans x y z : py_eq x y = true -> py_eq y z = true -> py_eq x z = true.
Proof.
  unfold py_eq. rewrite !andb_true_iff. intros [H1 H2] [H3 H4].
  split; eapply xreal_eqb_trans; eassumption.
Qed.

Lemma py_is_or_eq_refl x : py_is_or_eq x x = true.
Proof. unfold py_is_or_eq. now rewrite bool_decide_eq_true_2. Qed.

Lemma py_is_or_eq_sym x y : py_is_or_eq x y = py_is_or_eq y x.
Proof.
  unfold py_is_or_eq. rewrite (py_eq_sym x y). f_equal.
  apply bool_decide_ext. split; congruence.
Qed.

Lemma py_is_or_eq_trans x y z :
  py_is_or_eq x y = true -> py_is_or_eq y z = true -> py_is_or_eq x z = true.
Proof.
  unfold py_is_or_eq. rewrite !orb_true_iff, !bool_decide_eq_true.
  intros [-> | H1] [-> | H2]; eauto using py_eq_trans.
Qed.

(** Objects that a dict takes for the same key compare alike with any
    third object. *)
Lemma py_is_or_eq_py_eq x y z : py_is_or_eq x y = true -> py_eq x z = py_eq y z.
Proof.
  unfold py_is_or_eq. rewrite orb_true_iff, bool_decide_eq_true.
  intros [-> | H]; [reflexivity |].
  apply eq_true_iff_eq. split; intros H'.
  - apply py_eq_trans with x; [now rewrite py_eq_sym | exact H'].
  - apply py_eq_trans with y; assumption.
Qed.

Lemma key_eqb_refl k : key_eqb k k = true.
Proof.
  destruct k as [[i a] b]. simpl.
  now rewrite String.eqb_refl, !py_is_or_eq_refl.
Qed.

Lemma key_eqb_sym k1 k2 : key_eqb k1 k2 = key_eqb k2 k1.
Proof.
  destruct k1 as [[i1 a1] b1], k2 as [[i2 a2] b2]. simpl.
  now rewrite String.eqb_sym, (py_is_or_eq_sym a1), (py_is_or_eq_sym b1).
Qed.

Lemma key_eqb_trans k1 k2 k3 :
  key_eqb k1 k2 = true -> key_eqb k2 k3 = true -> key_eqb k1 k3 = true.
Proof.
  destruct k1 as [[i1 a1] b1], k2 as [[i2 a2] b2], k3 as [[i3 a3] b3]. simpl.
  rewrite !andb_true_iff, !String.eqb_eq.
  intros [[-> Ha] Hb] [[-> Ha'] Hb'].
  eauto using py_is_or_eq_trans.
Qed.

Lemma key_eqb_congr k1 k2 k : key_eqb k1 k2 = true -> key_eqb k1 k = key_eqb k2 k.
Proof.
  intros H. apply eq_true_iff_eq. split; intros H'.
  - apply key_eqb_trans with k1; [now rewrite key_eqb_sym | exact H'].
  - apply key_eqb_trans with k2; assumption.
Qed.

(** ** The dict operations *)

Lemma dict_get_congr d k1 k2 :
  key_eqb k1 k2 = true -> dict_get d k1 = dict_get d k2.
Proof.
  intros H. induction d as [|[k v] d IH]; simpl; [reflexivity |].
  now rewrite (key_eqb_congr k1 k2 k H), IH.
Qed.

Lemma dict_get_elem d k v :
  dict_get d k = Some v -> exists k', (k', v) ∈ d /\ key_eqb k k' = true.
Proof.
  induction d as [|[k1 v1] d IH]; simpl; [discriminate |].
  destruct (key_eqb k k1) eqn:E.
  - intros [= ->]. exists k1. split; [left | exact E].
  - intros H. destruct (IH H) as (k' & Hin & Hk). exists k'. split; [now right | exact Hk].
Qed.

Lemma dict_set_miss d k v : dict_get d k = None -> dict_set d k v = d ++ [(k, v)].
Proof.
  induction d as [|[k1 v1] d IH]; simpl; [reflexivity |].
  destruct (key_eqb k k1); [discriminate |]. intros H. now rewrite IH.
Qed.

Lemma dict_get_set_eq d k v : dict_get (dict_set d k v) k = Some v.
Proof.
  induction d as [|[k1 v1] d IH]; simpl.
  - now rewrite key_eqb_refl.
  - destruct (key_eqb k k1) eqn:E; simpl; now rewrite E.
Qed.

Lemma dict_get_set_ne d k v k' :
  key_eqb k' k = false -> dict_get (dict_set d k v) k' = dict_get d k'.
Proof.
  intros Hne. induction d as [|[k1 v1] d IH]; simpl.
  - now rewrite Hne.
  - destruct (key_eqb k k1) eqn:E; simpl.
    + rewrite (key_eqb_sym k' k), (key_eqb_congr k k1 k' E), (key_eqb_sym k1 k') in Hne.
      now rewrite Hne.
    + now rewrite IH.
Qed.

Lemma dict_count_app d1 d2 k :
  dict_count (d1 ++ d2) k = (dict_count d1 k + dict_count d2 k)%nat.
Proof.
  induction d1 as [|[k1 v1] d1 IH]; simpl; [reflexivity |]. rewrite IH. lia.
Qed.

Lemma dict_count_miss d k : dict_get d k = None -> dict_count d k = 0%nat.
Proof.
  induction d as [|[k1 v1] d IH]; simpl; [reflexivity |].
  destruct (key_eqb k k1); [discriminate |]. exact IH.
Qed.

Lemma dict_count_hit d k v :
  dict_wf d -> dict_get d k = Some v -> dict_count d k = 1%nat.
Proof.
  induction d as [|[k1 v1] d IH]; simpl; [discriminate |].
  intros [Hk1 Hwf]. destruct (key_eqb k k1) eqn:E.
  - intros _. rewrite dict_count_miss; [reflexivity |].
    now rewrite (dict_get_congr d k k1 E).
  - intros H. now rewrite IH.
Qed.

Lemma dict_wf_set d k v : dict_wf d -> dict_wf (dict_set d k v).
Proof.
  induction d as [|[k1 v1] d IH]; simpl; [tauto |].
  intros [Hk1 Hwf]. destruct (key_eqb k k1) eqn:E; simpl; [tauto |].
  split; [| auto]. rewrite dict_get_set_ne; [exact Hk1 |].
  now rewrite key_eqb_sym.
Qed.

(** ** Python list indexing *)

Lemma list_index_lt len i n : list_index len i = Some n -> (n < len)%nat.
Proof.
  unfold list_index.
  destruct ((0 <=? i) && (i <? Z.of_nat len)) eqn:E1; [intros [= <-]; lia |].
  destruct ((- Z.of_nat len <=? i) && (i <? 0)) eqn:E2;
    [intros [= <-]; lia | discriminate].
Qed.

Lemma list_index_in_range len i :
  0 <= i < Z.of_nat len -> list_index len i = Some (Z.to_nat i).
Proof.
  intros H. unfold list_index.
  replace (0 <=? i) with true by lia. replace (i <? Z.of_nat len) with true by lia.
  reflexivity.
Qed.

Lemma list_index_negative len i :
  - Z.of_nat len <= i < 0 -> list_index len i = Some (Z.to_nat (i + Z.of_nat len)).
Proof.
  intros H. unfold list_index.
  replace (0 <=? i) with false by lia. replace (i <? 0) with true by lia.
  replace (- Z.of_nat len <=? i) with true by lia. reflexivity.
Qed.

Lemma list_index_out_of_range len i :
  i < - Z.of_nat len \/ Z.of_nat len <= i -> list_index len i = None.
Proof.
  intros H. unfold list_index.
  destruct ((0 <=? i) && (i <? Z.of_nat len)) eqn:E1; [lia |].
  destruct ((- Z.of_nat len <=? i) && (i <? 0)) eqn:E2; [lia | reflexivity].
Qed.

Lemma list_getitem_Ok l i v :
  list_getitem l i = Ok v <->
  exists n, list_index (length l) i = Some n /\ l !! n = Some v.
Proof.
  unfold list_getitem. destruct (list_index (length l) i) as [n|].
  - destruct (l !! n) as [w|] eqn:E.
    + split; [intros [= ->]; eauto | intros (m & Hm & Hv); congruence].
    + split; [discriminate | intros (m & Hm & Hv); congruence].
  - split; [discriminate | intros (m & Hm & _); discriminate].
Qed.

Lemma list_getitem_total l i n :
  list_index (length l) i = Some n -> exists v, list_getitem l i = Ok v.
Proof.
  intros H. unfold list_getitem. rewrite H.
  destruct (lookup_lt_is_Some_2 l n (list_index_lt _ _ _ H)) as [v Hv].
  rewrite Hv. eauto.
Qed.

(** ** The methods, step by step *)

Ltac run_monad :=
  unfold bind, get_registers, set_registers, get_cache, set_cache,
    lift, raise, print, ret; simpl.

Lemma load_eq reg_index v s :
  load reg_index v s =
  if (0 <=? reg_index) && (reg_index <? Z.of_nat (length (registers s)))
  then (Ok tt, mkCPU (<[Z.to_nat reg_index := v]> (registers s)) (cache s), [])
  else (Raise (ValueError "Invalid register index"), s, []).
Proof.
  unfold load. run_monad.
  destruct ((0 <=? reg_index) && (reg_index <? Z.of_nat (length (registers s)))) eqn:E;
    [| reflexivity].
  unfold list_setitem. rewrite list_index_in_range by lia. reflexivity.
Qed.

Lemma get_register_eq reg_index s :
  get_register reg_index s =
  if (0 <=? reg_index) && (reg_index <? Z.of_nat (length (registers s)))
  then (list_getitem (registers s) reg_index, s, [])
  else (Raise (ValueError "Invalid register index"), s, []).
Proof.
  unfold get_register. run_monad.
  destruct ((0 <=? reg_index) && (reg_index <? Z.of_nat (length (registers s))));
    reflexivity.
Qed.

Lemma control_unit_eq instruction reg_a_index reg_b_index dest_reg_index s :
  control_unit instruction reg_a_index reg_b_index dest_reg_index s =
  match list_getitem (registers s) reg_a_index with
  | Raise e => (Raise e, s, [])
  | Ok val_a =>
  match list_getitem (registers s) reg_b_index with
  | Raise e => (Raise e, s, [])
  | Ok val_b =>
  match format_operands val_a val_b with
  | Raise e => (Raise e, s, [])
  | Ok _ =>
      let cache_key := (instruction, val_a, val_b) in
      let target := target_reg reg_a_index dest_reg_index in
      match dict_get (cache s) cache_key with
      | Some r =>
          match list_setitem (registers s) target r with
          | Ok regs => (Ok r, mkCPU regs (cache s), [CacheHit instruction val_a val_b])
          | Raise e => (Raise e, s, [CacheHit instruction val_a val_b])
          end
      | None =>
          match _alu_dispatch instruction val_a val_b with
          | Raise e => (Raise e, s, [CacheMiss instruction val_a val_b])
          | Ok r =>
              let c := dict_set (cache s) cache_key r in
              match list_setitem (registers s) target r with
              | Ok regs => (Ok r, mkCPU regs c, [CacheMiss instruction val_a val_b])
              | Raise e =>
                  (Raise e, mkCPU (registers s) c, [CacheMiss instruction val_a val_b])
              end
          end
      end
  end
  end
  end.
Proof.
  destruct s as [regs c].
  unfold control_unit, dict_contains, dict_getitem, target_reg. run_monad.
  destruct (list_getitem regs reg_a_index) as [val_a|]; [| reflexivity].
  destruct (list_getitem regs reg_b_index) as [val_b|]; [| reflexivity].
  destruct (dict_get c (instruction, val_a, val_b)) as [r|] eqn:Hget; simpl;
    (destruct (format_operands val_a val_b) as [[]|]; simpl; [| reflexivity]).
  - rewrite Hget. destruct (list_setitem regs _ r); reflexivity.
  - destruct (_alu_dispatch instruction val_a val_b) as [r|]; simpl; [| reflexivity].
    destruct (list_setitem regs _ r); reflexivity.
Qed.

(** What a returning call has done. *)
Lemma control_unit_Ok_inv instruction reg_a_index reg_b_index dest_reg_index
    s r s' out :
  control_unit instruction reg_a_index reg_b_index dest_reg_index s = (Ok r, s', out) ->
  exists val_a val_b n,
    list_getitem (registers s) reg_a_index = Ok val_a /\
    list_getitem (registers s) reg_b_index = Ok val_b /\
    list_index (length (registers s)) (target_reg reg_a_index dest_reg_index) = Some n /\
    registers s' = <[n := r]> (registers s) /\
    dict_get (cache s') (instruction, val_a, val_b) = Some r /\
    format_operands val_a val_b = Ok tt.
Proof.
  rewrite control_unit_eq.
  destruct (list_getitem (registers s) reg_a_index) as [a|]; [| discriminate].
  destruct (list_getitem (registers s) reg_b_index) as [b|]; [| discriminate].
  destruct (format_operands a b) as [[]|] eqn:Hfmt; [| discriminate].
  cbv zeta. unfold list_setitem.
  destruct (list_index (length (registers s)) (target_reg reg_a_index dest_reg_index))
    as [n|].
  - intros H. exists a, b, n. repeat (split; [reflexivity |]).
    destruct (dict_get (cache s) (instruction, a, b)) as [r0|] eqn:Hget.
    + injection H as -> <- _. simpl. auto.
    + destruct (_alu_dispatch instruction a b) as [r0|]; [| discriminate].
      injection H as -> <- _. simpl. auto using dict_get_set_eq.
  - destruct (dict_get (cache s) (instruction, a, b)); [discriminate |].
    destruct (_alu_dispatch instruction a b); discriminate.
Qed.

Lemma list_getitem_insert_eq l i n v :
  list_index (length l) i = Some n -> list_getitem (<[n := v]> l) i = Ok v.
Proof.
  intros Hn. unfold list_getitem. rewrite length_insert, Hn.
  rewrite list_lookup_insert_eq by (eapply list_index_lt; eassumption).
  reflexivity.
Qed.

Lemma list_getitem_insert_ne l i n v :
  list_index (length l) i <> Some n ->
  list_getitem (<[n := v]> l) i = list_getitem l i.
Proof.
  intros Hn. unfold list_getitem. rewrite length_insert.
  destruct (list_index (length l) i) as [m|]; [| reflexivity].
  rewrite list_lookup_insert_ne by congruence. reflexivity.
Qed.

(** ** Invariants of the reachable states *)

Lemma alu_dispatch_dispatched instruction a b r :
  _alu_dispatch instruction a b = Ok r -> instruction ∈ dispatched.
Proof.
  unfold _alu_dispatch, dispatched.
  repeat match goal with
         | |- context [String.eqb instruction ?n] =>
             destruct (String.eqb_spec instruction n) as [-> | _];
             [intros _; solve [repeat constructor] |]
         end.
  discriminate.
Qed.

Lemma alu_dispatch_unknown instruction a b :
  instruction ∉ dispatched ->
  _alu_dispatch instruction a b =
  Raise (ValueError ("Unknown instruction: " ++ instruction)).
Proof.
  unfold _alu_dispatch, dispatched. intros Hn.
  repeat match goal with
         | |- context [String.eqb instruction ?n] =>
             destruct (String.eqb_spec instruction n) as [-> | _];
             [exfalso; apply Hn; solve [repeat constructor] |]
         end.
  reflexivity.
Qed.

Lemma cache_sound_set d instruction a b r :
  cache_sound d ->
  dict_get d (instruction, a, b) = None ->
  _alu_dispatch instruction a b = Ok r ->
  cache_sound (dict_set d (instruction, a, b) r).
Proof.
  intros Hd Hmiss Hr. rewrite dict_set_miss by exact Hmiss.
  intros i' a' b' r' [Hin | Hin]%elem_of_app.
  - now apply Hd.
  - apply list_elem_of_singleton in Hin. injection Hin as Hi Ha Hb Hr'.
    subst i' a' b' r'.
    split; [eapply alu_dispatch_dispatched |]; eassumption.
Qed.

Lemma list_setitem_length l i v l' :
  list_setitem l i v = Ok l' -> length l' = length l.
Proof.
  unfold list_setitem. destruct (list_index (length l) i); [| discriminate].
  intros [= <-]. apply length_insert.
Qed.

Lemma invariant_init : invariant CPU_init.
Proof.
  split; [reflexivity | split; [exact I |]].
  intros i a b r Hin. inversion Hin.
Qed.

Lemma invariant_load s reg_index v :
  invariant s -> invariant (state_of (load reg_index v s)).
Proof.
  intros (Hlen & Hwf & Hsound). rewrite load_eq.
  destruct ((0 <=? reg_index) && (reg_index <? Z.of_nat (length (registers s))));
    unfold state_of, invariant; simpl; [| tauto].
  now rewrite length_insert.
Qed.

Lemma invariant_get_register s reg_index :
  invariant s -> invariant (state_of (get_register reg_index s)).
Proof.
  intros H. rewrite get_register_eq.
  destruct ((0 <=? reg_index) && (reg_index <? Z.of_nat (length (registers s))));
    exact H.
Qed.

Lemma invariant_control_unit s instruction reg_a_index reg_b_index dest_reg_index :
  invariant s ->
  invariant (state_of (control_unit instruction reg_a_index reg_b_index
                         dest_reg_index s)).
Proof.
  intros (Hlen & Hwf & Hsound). rewrite control_unit_eq.
  destruct (list_getitem (registers s) reg_a_index) as [a|];
    [| unfold state_of, invariant; simpl; tauto].
  destruct (list_getitem (registers s) reg_b_index) as [b|];
    [| unfold state_of, invariant; simpl; tauto].
  destruct (format_operands a b) as [[]|];
    [| unfold state_of, invariant; simpl; tauto].
  cbv zeta.
  destruct (dict_get (cache s) (instruction, a, b)) as [r|] eqn:Hget.
  - destruct (list_setitem (registers s) _ r) as [regs|] eqn:Hset;
      unfold state_of, invariant; simpl; [| tauto].
    rewrite (list_setitem_length _ _ _ _ Hset). tauto.
  - destruct (_alu_dispatch instruction a b) as [r|] eqn:Hr;
      [| unfold state_of, invariant; simpl; tauto].
    pose proof (dict_wf_set (cache s) (instruction, a, b) r Hwf).
    pose proof (cache_sound_set _ _ _ _ _ Hsound Hget Hr).
    destruct (list_setitem (registers s) _ r) as [regs|] eqn:Hset;
      unfold state_of, invariant; simpl; [| tauto].
    rewrite (list_setitem_length _ _ _ _ Hset). tauto.
Qed.

Lemma reachable_invariant s : reachable s -> invariant s.
Proof.
  induction 1;
    auto using invariant_init, invariant_load, invariant_get_register,
      invariant_control_unit.
Qed.

(** ** The reference run of the driver program *)

(** C1. The canonical scenario.  A fresh machine has registers
    [[0,0,0,0]]; [load(0,10)] and [load(1,5)] give [[10,5,0,0]];
    [control_unit("ADD",0,1,2)] returns 15, leaves [[10,5,15,0]], adds the
    cache item [(ADD,10,5): 15] and reports a miss; the same call again
    returns 15 as a hit and changes nothing; [control_unit("MUL",0,1,3)]
    returns 50 and leaves [[10,5,15,50]]; [control_unit("ADD",2,3,0)]
    returns 65 and leaves [[65,5,15,50]]. *)
Theorem C1_canonical_scenario :
  let add_10_5 := (("ADD", VInt 10, VInt 5), VInt 15) in
  let mul_10_5 := (("MUL", VInt 10, VInt 5), VInt 50) in
  let add_15_50 := (("ADD", VInt 15, VInt 50), VInt 65) in
  let s1 := mkCPU [VInt 10; VInt 0; VInt 0; VInt 0] [] in
  let s2 := mkCPU [VInt 10; VInt 5; VInt 0; VInt 0] [] in
  let s3 := mkCPU [VInt 10; VInt 5; VInt 15; VInt 0] [add_10_5] in
  let s4 := mkCPU [VInt 10; VInt 5; VInt 15; VInt 50] [add_10_5; mul_10_5] in
  let s5 := mkCPU [VInt 65; VInt 5; VInt 15; VInt 50]
              [add_10_5; mul_10_5; add_15_50] in
  CPU_init = mkCPU [VInt 0; VInt 0; VInt 0; VInt 0] [] /\
  load 0 (VInt 10) CPU_init = (Ok tt, s1, []) /\
  load 1 (VInt 5) s1 = (Ok tt, s2, []) /\
  control_unit "ADD" 0 1 (Some 2) s2
    = (Ok (VInt 15), s3, [CacheMiss "ADD" (VInt 10) (VInt 5)]) /\
  control_unit "ADD" 0 1 (Some 2) s3
    = (Ok (VInt 15), s3, [CacheHit "ADD" (VInt 10) (VInt 5)]) /\
  control_unit "MUL" 0 1 (Some 3) s3
    = (Ok (VInt 50), s4, [CacheMiss "MUL" (VInt 10) (VInt 5)]) /\
  control_unit "ADD" 2 3 (Some 0) s4
    = (Ok (VInt 65), s5, [CacheMiss "ADD" (VInt 15) (VInt 50)]).
Proof. repeat split. Qed.

(** ** Repeating a call *)


(** ** The cache after a successful call *)

(** C6. After a successful call on a machine whose cache is a dict, the
    cache holds exactly one item for the key [(instruction, val_a, val_b)],
    its value is the returned result, and the lookup of every other key
    gives what it gave before. *)
Theorem C6_cache_after_call instruction reg_a_index reg_b_index dest_reg_index
    s val_a val_b r s' out :
  dict_wf (cache s) ->
  list_getitem (registers s) reg_a_index = Ok val_a ->
  list_getitem (registers s) reg_b_index = Ok val_b ->
  control_unit instruction reg_a_index reg_b_index dest_reg_index s = (Ok r, s', out) ->
  dict_count (cache s') (instruction, val_a, val_b) = 1%nat /\
  dict_get (cache s') (instruction, val_a, val_b) = Some r /\
  forall k, key_eqb k (instruction, val_a, val_b) = false ->
            dict_get (cache s') k = dict_get (cache s) k.
Proof.
  intros Hwf Ha Hb. rewrite control_unit_eq, Ha, Hb.
  destruct (format_operands val_a val_b) as [[]|]; [| discriminate]. cbv zeta.
  destruct (dict_get (cache s) (instruction, val_a, val_b)) as [r0|] eqn:Hget.
  - destruct (list_setitem (registers s) _ r0) as [regs|]; [| discriminate].
    intros [= -> <- _]. simpl.
    split; [eapply dict_count_hit; eassumption | split; [exact Hget | reflexivity]].
  - destruct (_alu_dispatch instruction val_a val_b) as [r0|]; [| discriminate].
    destruct (list_setitem (registers s) _ r0) as [regs|]; [| discriminate].
    intros [= -> <- _]. simpl. split; [| split].
    + rewrite dict_set_miss, dict_count_app, (dict_count_miss _ _ Hget) by exact Hget.
      cbn [dict_count]. now rewrite key_eqb_refl.
    + apply dict_get_set_eq.
    + intros k Hk. now apply dict_get_set_ne.
Qed.

(** ** The destination register *)

(** C8. A successful call writes its result to the destination register,
    which is [reg_a_index] when the caller names none, and leaves every
    register at another position as it was. *)
Theorem C8_destination_and_frame instruction reg_a_index reg_b_index dest_reg_index
    s r s' out :
  control_unit instruction reg_a_index reg_b_index dest_reg_index s = (Ok r, s', out) ->
  (dest_reg_index = None -> list_getitem (registers s') reg_a_index = Ok r) /\
  list_getitem (registers s') (target_reg reg_a_index dest_reg_index) = Ok r /\
  forall j,
    list_index (length (registers s)) j
      <> list_index (length (registers s)) (target_reg reg_a_index dest_reg_index) ->
    list_getitem (registers s') j = list_getitem (registers s) j.
Proof.
  intros H.
  destruct (control_unit_Ok_inv _ _ _ _ _ _ _ _ H) as (a & b & n & _ & _ & Hn & -> & _).
  pose proof (list_getitem_insert_eq (registers s) _ n r Hn) as Htarget.
  split; [intros ->; exact Htarget | split; [exact Htarget |]].
  intros j Hj. apply list_getitem_insert_ne. now rewrite <- Hn.
Qed.

(** ** The cache of a reachable machine *)

(** C10. In every state reachable from a fresh machine by calls of [load],
    [get_register] and [control_unit], every cache item has a key whose
    instruction is one of the eight dispatched names and a value that is
    the result of that instruction's operation on the key's operands. *)
Theorem C10_cache_consistent s instruction a b r :
  reachable s ->
  ((instruction, a, b), r) ∈ cache s ->
  instruction ∈ dispatched /\ _alu_dispatch instruction a b = Ok r.
Proof.
  intros Hs Hin. destruct (reachable_invariant s Hs) as (_ & _ & Hsound).
  now apply Hsound.
Qed.

(** A key on which the ALU raises is not in the cache of a reachable
    machine. *)
Lemma failing_key_not_cached s instruction a b :
  reachable s ->
  (forall a' b', py_is_or_eq a a' = true -> py_is_or_eq b b' = true ->
                 exists e, _alu_dispatch instruction a' b' = Raise e) ->
  dict_get (cache s) (instruction, a, b) = None.
Proof.
  intros Hs Hfail.
  destruct (dict_get (cache s) (instruction, a, b)) as [r|] eqn:Hget; [| reflexivity].
  destruct (dict_get_elem _ _ _ Hget) as ([[i' a'] b'] & Hin & Hk).
  simpl in Hk. apply andb_true_iff in Hk as [[Hi Ha]%andb_true_iff Hb].
  apply String.eqb_eq in Hi. subst i'.
  destruct (reachable_invariant s Hs) as (_ & _ & Hsound).
  destruct (Hsound _ _ _ _ Hin) as [_ Hr].
  destruct (Hfail a' b' Ha Hb) as [e He]. congruence.
Qed.

(** ** Unknown instructions *)

(** C7, amended.  On a reachable machine, a call with an instruction name
    outside the eight dispatched ones raises and leaves the machine,
    registers and cache, as it was; the exception is the unknown-instruction
    error whenever the two operand registers can be fetched and their
    values formatted for the line the call prints. *)
Theorem C7_unknown_instruction instruction reg_a_index reg_b_index dest_reg_index s :
  reachable s ->
  instruction ∉ dispatched ->
  exists e out,
    control_unit instruction reg_a_index reg_b_index dest_reg_index s
      = (Raise e, s, out) /\
    forall val_a val_b,
      list_getitem (registers s) reg_a_index = Ok val_a ->
      list_getitem (registers s) reg_b_index = Ok val_b ->
      format_operands val_a val_b = Ok tt ->
      e = ValueError ("Unknown instruction: " ++ instruction) /\
      out = [CacheMiss instruction val_a val_b].
Proof.
  intros Hs Hn. rewrite control_unit_eq.
  destruct (list_getitem (registers s) reg_a_index) as [a|e];
    [| exists e, []; split; [reflexivity | discriminate]].
  destruct (list_getitem (registers s) reg_b_index) as [b|e];
    [| exists e, []; split; [reflexivity | discriminate]].
  destruct (format_operands a b) as [[]|e] eqn:Hfmt.
  - cbv zeta. rewrite (failing_key_not_cached s instruction a b Hs).
    + rewrite alu_dispatch_unknown by exact Hn.
      eexists _, _. split; [reflexivity |].
      intros val_a val_b [= <-] [= <-] _. split; reflexivity.
    + intros a' b' _ _. rewrite alu_dispatch_unknown by exact Hn. eauto.
  - exists e, []. split; [reflexivity |].
    intros val_a val_b [= <-] [= <-]. congruence.
Qed.

(** ** Division by zero *)

Lemma c_call_not_ValueError op x y : ~ is_ValueError (c_call op x y).
Proof. unfold c_call. destruct (c_arith interpreter op x y); simpl; tauto. Qed.

Lemma int_to_float_not_ValueError n : ~ is_ValueError (int_to_float n).
Proof.
  unfold int_to_float. destruct (n =? 0); [simpl; tauto |].
  destruct (round_quotient (n <? 0) (Z.abs n) 1); simpl; tauto.
Qed.

Lemma float_op_not_ValueError op f x y :
  (forall fx fy, ~ is_ValueError (f fx fy)) -> ~ is_ValueError (float_op op f x y).
Proof.
  intros Hf. unfold float_op.
  destruct (to_float x) as [rx|] eqn:Ex, (to_float y) as [ry|] eqn:Ey;
    try apply c_call_not_ValueError.
  assert (Hx : ~ is_ValueError rx).
  { destruct x; simpl in Ex; try discriminate; injection Ex as <-;
      [apply int_to_float_not_ValueError | simpl; tauto]. }
  assert (Hy : ~ is_ValueError ry).
  { destruct y; simpl in Ey; try discriminate; injection Ey as <-;
      [apply int_to_float_not_ValueError | simpl; tauto]. }
  destruct rx as [fx|[]]; simpl in *; try tauto.
  destruct ry as [fy|[]]; simpl in *; try tauto.
  specialize (Hf fx fy). destruct (f fx fy) as [fz|[]]; simpl in *; tauto.
Qed.

Lemma int_truediv_not_ValueError a b : ~ is_ValueError (int_truediv a b).
Proof.
  unfold int_truediv. destruct (b =? 0); [simpl; tauto |].
  destruct (a =? 0); [simpl; tauto |].
  destruct (round_quotient (xorb (a <? 0) (b <? 0)) (Z.abs a) (Z.abs b)); simpl; tauto.
Qed.

Lemma py_truediv_not_ValueError x y : ~ is_ValueError (py_truediv x y).
Proof.
  assert (Hf : forall fx fy, ~ is_ValueError (float_truediv fx fy)).
  { intros fx fy. unfold float_truediv. destruct (float_is_zero fy); simpl; tauto. }
  destruct x as [a| |], y as [b| |]; simpl;
    try (apply float_op_not_ValueError; exact Hf).
  pose proof (int_truediv_not_ValueError a b) as H.
  destruct (int_truediv a b) as [fz|[]]; simpl in *; tauto.
Qed.

Lemma py_mod_not_ValueError x y : ~ is_ValueError (py_mod x y).
Proof.
  destruct x, y; simpl; try apply c_call_not_ValueError; try tauto.
  destruct (n0 =? 0); simpl; tauto.
Qed.

Lemma list_setitem_not_ValueError l i v : ~ is_ValueError (list_setitem l i v).
Proof. unfold list_setitem. destruct (list_index (length l) i); simpl; tauto. Qed.

(** What [_alu_dispatch] does on the two dividing instructions. *)
Lemma alu_dispatch_dividing instruction a b :
  instruction = "DIV" \/ instruction = "MOD" ->
  _alu_dispatch instruction a b =
  if py_eq b (VInt 0) then Raise (ValueError "Can't divide by zero")
  else if String.eqb instruction "DIV" then py_truediv a b else py_mod a b.
Proof. intros [-> | ->]; reflexivity. Qed.

(** C4, amended.  On a reachable machine, a call with instruction DIV or
    MOD, with operand registers that can be fetched and operand values that
    can be formatted for the line the call prints, raises the
    division-by-zero error exactly when the value of [reg_b_index] equals
    0; the failing call leaves the machine as it was, registers and cache,
    and the cache has no item for the failing key. *)
Theorem C4_division_by_zero instruction reg_a_index reg_b_index dest_reg_index
    s val_a val_b :
  reachable s ->
  instruction = "DIV" \/ instruction = "MOD" ->
  list_getitem (registers s) reg_a_index = Ok val_a ->
  list_getitem (registers s) reg_b_index = Ok val_b ->
  format_operands val_a val_b = Ok tt ->
  let outcome := control_unit instruction reg_a_index reg_b_index dest_reg_index s in
  (outcome.1.1 = Raise (ValueError "Can't divide by zero")
   <-> py_eq val_b (VInt 0) = true) /\
  (py_eq val_b (VInt 0) = true ->
   outcome = (Raise (ValueError "Can't divide by zero"), s,
              [CacheMiss instruction val_a val_b]) /\
   dict_get (cache s) (instruction, val_a, val_b) = None).
Proof.
  intros Hs Hi Ha Hb Hfmt outcome. subst outcome.
  rewrite control_unit_eq, Ha, Hb, Hfmt. cbv zeta.
  destruct (py_eq val_b (VInt 0)) eqn:Hz.
  - assert (Hmiss : dict_get (cache s) (instruction, val_a, val_b) = None).
    { apply failing_key_not_cached; [exact Hs |].
      intros a' b' _ Hb'. rewrite alu_dispatch_dividing by exact Hi.
      rewrite <- (py_is_or_eq_py_eq _ _ (VInt 0) Hb'), Hz. eauto. }
    rewrite Hmiss, alu_dispatch_dividing, Hz by exact Hi. simpl. tauto.
  - split; [| discriminate]. split; [| discriminate]. intros H. exfalso.
    destruct (dict_get (cache s) (instruction, val_a, val_b)) as [r|].
    + pose proof (list_setitem_not_ValueError (registers s)
                    (target_reg reg_a_index dest_reg_index) r) as Hset.
      destruct (list_setitem (registers s)
                  (target_reg reg_a_index dest_reg_index) r) as [regs|e];
        simpl in H; [discriminate |].
      injection H as ->. simpl in Hset. tauto.
    + rewrite alu_dispatch_dividing, Hz in H by exact Hi.
      assert (Hop : ~ is_ValueError
                      (if String.eqb instruction "DIV"
                       then py_truediv val_a val_b else py_mod val_a val_b)).
      { destruct (String.eqb instruction "DIV");
          [apply py_truediv_not_ValueError | apply py_mod_not_ValueError]. }
      destruct (if String.eqb instruction "DIV" then _ else _) as [r|e].
      * pose proof (list_setitem_not_ValueError (registers s)
                      (target_reg reg_a_index dest_reg_index) r) as Hset.
        destruct (list_setitem (registers s)
                    (target_reg reg_a_index dest_reg_index) r) as [regs|e];
          simpl in H; [discriminate |].
        injection H as ->. simpl in Hset. tauto.
      * simpl in H. injection H as ->. simpl in Hop. tauto.
Qed.

(** ** Register indices *)

(** [load] and [get_register] check the index themselves: on a machine
    with its four registers they raise exactly when the index is outside
    [0..3], and they leave the machine as it was when they raise. *)
Lemma load_index_check s reg_index v :
  length (registers s) = 4%nat ->
  if (0 <=? reg_index) && (reg_index <? 4)
  then load reg_index v s
       = (Ok tt, mkCPU (<[Z.to_nat reg_index := v]> (registers s)) (cache s), [])
  else load reg_index v s = (Raise (ValueError "Invalid register index"), s, []).
Proof.
  intros Hlen. rewrite load_eq, Hlen.
  destruct ((0 <=? reg_index) && (reg_index <? 4)) eqn:E;
    change (Z.of_nat 4) with 4; now rewrite E.
Qed.

Lemma get_register_index_check s reg_index :
  length (registers s) = 4%nat ->
  if (0 <=? reg_index) && (reg_index <? 4)
  then exists v, registers s !! Z.to_nat reg_index = Some v /\
                 get_register reg_index s = (Ok v, s, [])
  else get_register reg_index s = (Raise (ValueError "Invalid register index"), s, []).
Proof.
  intros Hlen. rewrite get_register_eq, Hlen. change (Z.of_nat 4) with 4.
  destruct ((0 <=? reg_index) && (reg_index <? 4)) eqn:E; [| reflexivity].
  unfold list_getitem. rewrite Hlen, list_index_in_range by lia.
  destruct (lookup_lt_is_Some_2 (registers s) (Z.to_nat reg_index)) as [v Hv]; [lia |].
  exists v. now rewrite Hv.
Qed.

(** [control_unit] leaves the check to the list: an operand index outside
    [-4..3] raises [IndexError] before anything is changed. *)
Lemma control_unit_operand_out_of_range instruction reg_a_index reg_b_index
    dest_reg_index s :
  length (registers s) = 4%nat ->
  (reg_a_index < -4 \/ 4 <= reg_a_index) \/
  (-4 <= reg_a_index < 4 /\ (reg_b_index < -4 \/ 4 <= reg_b_index)) ->
  control_unit instruction reg_a_index reg_b_index dest_reg_index s
  = (Raise (IndexError "list index out of range"), s, []).
Proof.
  intros Hlen H. rewrite control_unit_eq.
  assert (Hfail : forall i, i < -4 \/ 4 <= i ->
            list_getitem (registers s) i = Raise (IndexError "list index out of range")).
  { intros i Hi. unfold list_getitem.
    rewrite list_index_out_of_range by (rewrite Hlen; lia). reflexivity. }
  destruct H as [Ha | [Ha Hb]].
  - now rewrite Hfail.
  - destruct (list_getitem_total (registers s) reg_a_index
                (Z.to_nat (if 0 <=? reg_a_index then reg_a_index else reg_a_index + 4)))
      as [a ->].
    + destruct (0 <=? reg_a_index) eqn:E.
      * apply list_index_in_range. lia.
      * rewrite list_index_negative by lia. now rewrite Hlen.
    + now rewrite Hfail.
Qed.

(** On [int] operands the instructions ADD, SUB, MUL, AND and OR are
    total, so a call with indices in range and operands that can be
    formatted returns. *)
Lemma alu_dispatch_int_total instruction a b :
  instruction ∈ ["ADD"; "SUB"; "MUL"; "AND"; "OR"] ->
  exists n, _alu_dispatch instruction (VInt a) (VInt b) = Ok (VInt n).
Proof.
  intros H.
  repeat (apply elem_of_cons in H as [-> | H]; [eexists; reflexivity |]).
  inversion H.
Qed.

Lemma control_unit_int_returns instruction reg_a_index reg_b_index dest_reg_index
    s a b :
  length (registers s) = 4%nat ->
  instruction ∈ ["ADD"; "SUB"; "MUL"; "AND"; "OR"] ->
  list_getitem (registers s) reg_a_index = Ok (VInt a) ->
  list_getitem (registers s) reg_b_index = Ok (VInt b) ->
  format_operands (VInt a) (VInt b) = Ok tt ->
  -4 <= target_reg reg_a_index dest_reg_index < 4 ->
  exists r s' out,
    control_unit instruction reg_a_index reg_b_index dest_reg_index s = (Ok r, s', out).
Proof.
  intros Hlen Hi Ha Hb Hfmt Ht. rewrite control_unit_eq, Ha, Hb, Hfmt. cbv zeta.
  assert (Hset : forall r, exists regs,
            list_setitem (registers s) (target_reg reg_a_index dest_reg_index) r
            = Ok regs).
  { intros r. unfold list_setitem. rewrite Hlen.
    destruct (0 <=? target_reg reg_a_index dest_reg_index) eqn:E.
    - rewrite list_index_in_range by lia. eauto.
    - rewrite list_index_negative by lia. eauto. }
  destruct (dict_get (cache s) (instruction, VInt a, VInt b)) as [r|].
  - destruct (Hset r) as [regs ->]. eauto.
  - destruct (alu_dispatch_int_total instruction a b Hi) as [n ->].
    destruct (Hset (VInt n)) as [regs ->]. eauto.
Qed.

(** C2. The control unit takes the index -1 that [load] refuses: on the
    machine with 7 in register 3, [control_unit("ADD", -1, -1)] reads
    register 3 twice, returns 14 and writes it to register 3, while
    [load(-1, 7)] raises the invalid-register-index error. *)
Theorem C2_negative_index_accepted :
  let s := mkCPU [VInt 0; VInt 0; VInt 0; VInt 7] [] in
  load 3 (VInt 7) CPU_init = (Ok tt, s, []) /\
  load (-1) (VInt 7) CPU_init
    = (Raise (ValueError "Invalid register index"), CPU_init, []) /\
  control_unit "ADD" (-1) (-1) None s
    = (Ok (VInt 14),
       mkCPU [VInt 0; VInt 0; VInt 0; VInt 14] [(("ADD", VInt 7, VInt 7), VInt 14)],
       [CacheMiss "ADD" (VInt 7) (VInt 7)]).
Proof. repeat split. Qed.

(** C5. A call that fails on its destination index has already stored
    its result in the cache: on a fresh machine
    [control_unit("ADD", 0, 1, 4)] raises [IndexError] and leaves the cache
    with the item [(ADD,0,0): 0]. *)
Theorem C5_failed_call_changes_cache :
  control_unit "ADD" 0 1 (Some 4) CPU_init
  = (Raise (IndexError "list assignment index out of range"),
     mkCPU [VInt 0; VInt 0; VInt 0; VInt 0] [(("ADD", VInt 0, VInt 0), VInt 0)],
     [CacheMiss "ADD" (VInt 0) (VInt 0)]).
Proof. reflexivity. Qed.

(** ** Division *)

(** *** Rounding to the nearest integer *)

Lemma round_half_even_cases n d :
  0 < d ->
  exists q r, n = d * q + r /\ 0 <= r < d /\
    ((2 * r < d /\ round_half_even n d = q) \/
     (d < 2 * r /\ round_half_even n d = q + 1) \/
     (2 * r = d /\ Z.even q = true /\ round_half_even n d = q) \/
     (2 * r = d /\ Z.even q = false /\ round_half_even n d = q + 1)).
Proof.
  intros Hd. exists (n / d), (n mod d).
  split; [apply Z.div_mod; lia |]. split; [apply Z.mod_pos_bound; lia |].
  unfold round_half_even.
  destruct (Z.ltb_spec (2 * (n mod d)) d); [left; lia |].
  destruct (Z.ltb_spec d (2 * (n mod d))); [right; left; lia |].
  destruct (Z.even (n / d)) eqn:E; [right; right; left | right; right; right]; lia.
Qed.

Lemma round_half_even_nearest n d k :
  0 < d -> Z.abs (round_half_even n d * d - n) <= Z.abs (k * d - n).
Proof.
  intros Hd. destruct (round_half_even_cases n d Hd) as (q & r & -> & Hr & H).
  destruct (Z_le_gt_dec k q); destruct H as [[? ->] | [[? ->] | [(? & ? & ->) | (? & ? & ->)]]]; nia.
Qed.

Lemma round_half_even_half n d :
  0 < d -> 2 * Z.abs (round_half_even n d * d - n) <= d.
Proof.
  intros Hd. destruct (round_half_even_cases n d Hd) as (q & r & -> & Hr & H).
  destruct H as [[? ->] | [[? ->] | [(? & ? & ->) | (? & ? & ->)]]]; nia.
Qed.

Lemma round_half_even_tie n d :
  0 < d -> 2 * Z.abs (round_half_even n d * d - n) = d ->
  Z.even (round_half_even n d) = true.
Proof.
  intros Hd. destruct (round_half_even_cases n d Hd) as (q & r & -> & Hr & H).
  destruct H as [[? ->] | [[? ->] | [(? & ? & ->) | (? & E & ->)]]]; intros; try nia; try assumption.
  rewrite Z.even_add, E. reflexivity.
Qed.

Lemma round_half_even_ge n d k :
  0 < d -> k * d <= n -> k <= round_half_even n d.
Proof.
  intros Hd. destruct (round_half_even_cases n d Hd) as (q & r & -> & Hr & H).
  destruct H as [[? ->] | [[? ->] | [(? & ? & ->) | (? & ? & ->)]]]; nia.
Qed.

Lemma round_half_even_le n d k :
  0 < d -> n <= k * d -> round_half_even n d <= k.
Proof.
  intros Hd. destruct (round_half_even_cases n d Hd) as (q & r & -> & Hr & H).
  destruct H as [[? ->] | [[? ->] | [(? & ? & ->) | (? & ? & ->)]]]; nia.
Qed.

(** other integer at the same distance: a tie *)
Lemma round_half_even_unique n d k :
  0 < d -> Z.abs (k * d - n) = Z.abs (round_half_even n d * d - n) ->
  k <> round_half_even n d -> Z.even (round_half_even n d) = true.
Proof.
  intros Hd He Hk. apply round_half_even_tie; [assumption |].
  pose proof (round_half_even_half n d Hd). nia.
Qed.

(** rounding at an even integer minus one half *)
Lemma round_half_even_up n d k :
  0 < d -> Z.even k = true -> (2 * k - 1) * d <= 2 * n -> k <= round_half_even n d.
Proof.
  intros Hd Hk Hn.
  pose proof (round_half_even_half n d Hd).
  destruct (Z_le_gt_dec k (round_half_even n d)); [assumption | exfalso].
  assert (round_half_even n d = k - 1) as E by nia.
  assert (Z.even (round_half_even n d) = true) as E2.
  { apply round_half_even_tie; [assumption | nia]. }
  rewrite E in E2. rewrite Z.even_sub, Hk in E2. discriminate.
Qed.

Lemma round_half_even_down n d k :
  0 < d -> 2 * n < (2 * k - 1) * d -> round_half_even n d < k.
Proof.
  intros Hd Hn. pose proof (round_half_even_half n d Hd). nia.
Qed.

(** *** Powers of two as rational numbers *)

Lemma pow2_pos e : (0 < 2 ^ e)%Q.
Proof. apply Qpower_0_lt. reflexivity. Qed.

Lemma pow2_add a b : (2 ^ (a + b) == 2 ^ a * 2 ^ b)%Q.
Proof. apply Qpower_plus. discriminate. Qed.

Lemma pow2_inject k : 0 <= k -> (inject_Z (2 ^ k) == 2 ^ k)%Q.
Proof. intros H. apply (Zpower_Qpower 2 k H). Qed.

Lemma pow2_le a b : a <= b -> (2 ^ a <= 2 ^ b)%Q.
Proof. intros H. apply Qpower_le_compat_l; [assumption | discriminate]. Qed.

Lemma pow2_opp a : (2 ^ a * 2 ^ (- a) == 1)%Q.
Proof. rewrite <- pow2_add, Z.add_opp_diag_r. reflexivity. Qed.

Lemma pow2_succ a : (2 ^ (a + 1) == 2 * 2 ^ a)%Q.
Proof. rewrite pow2_add. change (2 ^ 1)%Q with 2%Q. ring. Qed.

Lemma inject_Z_le a b : a <= b -> (inject_Z a <= inject_Z b)%Q.
Proof. intros H. rewrite <- Zle_Qle. exact H. Qed.

Lemma inject_Z_lt a b : a < b -> (inject_Z a < inject_Z b)%Q.
Proof. intros H. rewrite <- Zlt_Qlt. exact H. Qed.

Lemma log2_bounds a :
  0 < a -> (2 ^ Z.log2 a <= inject_Z a < 2 * 2 ^ Z.log2 a)%Q.
Proof.
  intros Ha. destruct (Z.log2_spec a Ha) as [H1 H2].
  pose proof (Z.log2_nonneg a) as H0.
  rewrite <- pow2_succ, <- !pow2_inject by lia.
  split; [apply inject_Z_le | apply inject_Z_lt]; [assumption |].
  replace (Z.log2 a + 1) with (Z.succ (Z.log2 a)) by lia. assumption.
Qed.

Lemma quotient_log2_test a b d :
  0 < a -> 0 < b ->
  (if 0 <=? d then b * 2 ^ d <=? a else b <=? a * 2 ^ (- d)) = true
  <-> (inject_Z b * 2 ^ d <= inject_Z a)%Q.
Proof.
  intros Ha Hb. destruct (Z.leb_spec 0 d).
  - rewrite Z.leb_le, Zle_Qle, inject_Z_mult, pow2_inject by assumption. reflexivity.
  - rewrite Z.leb_le, Zle_Qle, inject_Z_mult, pow2_inject by lia.
    rewrite <- (Qmult_le_r _ (inject_Z a * 2 ^ (- d)) (2 ^ d)) by apply pow2_pos.
    assert (inject_Z a * 2 ^ (- d) * 2 ^ d == inject_Z a)%Q as ->; [| reflexivity].
    rewrite <- Qmult_assoc, (Qmult_comm (2 ^ (- d))), pow2_opp. ring.
Qed.

Lemma quotient_log2_spec a b :
  0 < a -> 0 < b ->
  (inject_Z b * 2 ^ quotient_log2 a b <= inject_Z a
   < inject_Z b * (2 * 2 ^ quotient_log2 a b))%Q.
Proof.
  intros Ha Hb. unfold quotient_log2.
  pose proof (log2_bounds a Ha) as [A1 A2].
  pose proof (log2_bounds b Hb) as [B1 B2].
  set (d := Z.log2 a - Z.log2 b).
  assert (Hd : (2 ^ Z.log2 a == 2 ^ d * 2 ^ Z.log2 b)%Q).
  { rewrite <- pow2_add. unfold d. replace (Z.log2 a - Z.log2 b + Z.log2 b) with (Z.log2 a) by lia. reflexivity. }
  pose proof (pow2_pos d) as Pd. pose proof (pow2_pos (Z.log2 b)) as Pb.
  pose proof (quotient_log2_test a b d Ha Hb) as T.
  destruct (if 0 <=? d then b * 2 ^ d <=? a else b <=? a * 2 ^ (- d)).
  - assert (inject_Z b * 2 ^ d <= inject_Z a)%Q as T1 by (apply T; reflexivity).
    split; [assumption |]. nra.
  - assert (~ (inject_Z b * 2 ^ d <= inject_Z a)%Q) as T1 by (intros X; apply T in X; discriminate).
    assert (2 * 2 ^ (d - 1) == 2 ^ d)%Q as E.
    { rewrite <- pow2_succ. replace (d - 1 + 1) with d by lia. reflexivity. }
    pose proof (pow2_pos (d - 1)).
    split; [| nra]. nra.
Qed.

Lemma scaled_spec a b e :
  0 < a -> 0 < b ->
  0 < (scaled a b e).1 /\ 0 < (scaled a b e).2 /\
  (inject_Z (scaled a b e).1 * inject_Z b * 2 ^ e
   == inject_Z a * inject_Z (scaled a b e).2)%Q.
Proof.
  intros Ha Hb. unfold scaled. destruct (Z.leb_spec 0 e); simpl.
  - split; [assumption |]. split; [apply Z.mul_pos_pos; [assumption | apply Z.pow_pos_nonneg; lia] |].
    rewrite inject_Z_mult, pow2_inject by assumption. ring.
  - split; [apply Z.mul_pos_pos; [assumption | apply Z.pow_pos_nonneg; lia] |].
    split; [assumption |].
    rewrite inject_Z_mult, pow2_inject by lia.
    transitivity (inject_Z a * inject_Z b * (2 ^ e * 2 ^ (- e)))%Q; [ring |].
    rewrite pow2_opp. ring.
Qed.

(** *** Distances on a grid of rational numbers *)

Lemma Qabs_scaled (U c : Q) (u : Z) :
  (0 < c)%Q -> (U == c * inject_Z u)%Q -> (Qabs U == c * inject_Z (Z.abs u))%Q.
Proof.
  intros Hc ->. rewrite Qabs_Qmult, (Qabs_pos c) by lra. reflexivity.
Qed.

Lemma Qabs_scaled_le (U V c : Q) (u v : Z) :
  (0 < c)%Q -> (U == c * inject_Z u)%Q -> (V == c * inject_Z v)%Q ->
  Z.abs u <= Z.abs v -> (Qabs U <= Qabs V)%Q.
Proof.
  intros Hc HU HV H.
  rewrite (Qabs_scaled U c u Hc HU), (Qabs_scaled V c v Hc HV).
  apply Qmult_le_l; [assumption | apply inject_Z_le; assumption].
Qed.

Lemma Qabs_scaled_eq (U V c : Q) (u v : Z) :
  (0 < c)%Q -> (U == c * inject_Z u)%Q -> (V == c * inject_Z v)%Q ->
  (Qabs U == Qabs V)%Q -> Z.abs u = Z.abs v.
Proof.
  intros Hc HU HV.
  rewrite (Qabs_scaled U c u Hc HU), (Qabs_scaled V c v Hc HV).
  intros H. apply Qmult_inj_l in H; [| lra]. apply inject_Z_injective. exact H.
Qed.

(** The quotient [n / d] scaled by [s], on the grid of the multiples of
    [s]. *)
Lemma grid_point (x s : Q) (n d k : Z) :
  0 < d -> (x * inject_Z d == inject_Z n * s)%Q ->
  (inject_Z k * s - x == s / inject_Z d * inject_Z (k * d - n))%Q.
Proof.
  intros Hd Hx.
  assert (~ inject_Z d == 0)%Q as Hd0.
  { intros E. apply inject_Z_lt in Hd. change (inject_Z 0) with 0%Q in Hd. lra. }
  assert (x == inject_Z n * s / inject_Z d)%Q as ->.
  { apply (Qmult_inj_r _ _ (inject_Z d) Hd0). rewrite Hx. field. exact Hd0. }
  unfold Z.sub. rewrite inject_Z_plus, inject_Z_mult, inject_Z_opp. field. exact Hd0.
Qed.

Lemma grid_nearest (x s : Q) (n d k : Z) :
  0 < d -> (0 < s)%Q -> (x * inject_Z d == inject_Z n * s)%Q ->
  (Qabs (inject_Z (round_half_even n d) * s - x) <= Qabs (inject_Z k * s - x))%Q.
Proof.
  intros Hd Hs Hx.
  assert (0 < s / inject_Z d)%Q as Hc.
  { apply Qlt_shift_div_l; [apply (inject_Z_lt 0 d Hd) | lra]. }
  eapply (Qabs_scaled_le _ _ _ _ _ Hc); try (apply grid_point; eassumption).
  apply round_half_even_nearest. assumption.
Qed.

Lemma grid_tie (x s : Q) (n d k : Z) :
  0 < d -> (0 < s)%Q -> (x * inject_Z d == inject_Z n * s)%Q ->
  (Qabs (inject_Z (round_half_even n d) * s - x) == Qabs (inject_Z k * s - x))%Q ->
  k <> round_half_even n d ->
  Z.even (round_half_even n d) = true.
Proof.
  intros Hd Hs Hx He Hk.
  assert (0 < s / inject_Z d)%Q as Hc.
  { apply Qlt_shift_div_l; [apply (inject_Z_lt 0 d Hd) | lra]. }
  apply (round_half_even_unique n d k Hd); [| assumption]. symmetry.
  eapply (Qabs_scaled_eq _ _ _ _ _ Hc); [| | exact He]; apply grid_point; assumption.
Qed.

(** *** The quotient of two positive integers, rounded *)

Section Quotient.
Variables a b : Z.
Variable x : Q.
Hypothesis Ha : 0 < a.
Hypothesis Hb : 0 < b.
Hypothesis Hx : (x * inject_Z b == inject_Z a)%Q.

Local Abbreviation l := (quotient_log2 a b).
Local Abbreviation e := (quotient_exponent a b).
Local Abbreviation N := ((scaled a b e).1).
Local Abbreviation D := ((scaled a b e).2).
Local Abbreviation n := (quotient_mantissa a b).
Local Abbreviation s := (2 ^ e)%Q.

Lemma quotient_mantissa_eq : n = round_half_even N D.
Proof.
  unfold quotient_mantissa. destruct (scaled a b (quotient_exponent a b)). reflexivity.
Qed.

Lemma quotient_D_pos : 0 < D.
Proof. apply (scaled_spec a b e Ha Hb). Qed.

Lemma quotient_s_pos : (0 < s)%Q.
Proof. apply pow2_pos. Qed.

Lemma quotient_b_pos : (0 < inject_Z b)%Q.
Proof. apply (inject_Z_lt 0 b Hb). Qed.

Lemma quotient_scaled : (x * inject_Z D == inject_Z N * s)%Q.
Proof.
  destruct (scaled_spec a b e Ha Hb) as (_ & _ & H).
  pose proof quotient_b_pos as Pb.
  apply (Qmult_inj_r _ _ (inject_Z b)); [lra |].
  transitivity (x * inject_Z b * inject_Z D)%Q; [ring |].
  rewrite Hx, <- H. ring.
Qed.

Lemma quotient_binade : (2 ^ l <= x < 2 * 2 ^ l)%Q.
Proof.
  destruct (quotient_log2_spec a b Ha Hb) as [H1 H2].
  pose proof quotient_b_pos as Pb. pose proof (pow2_pos l) as Pl.
  rewrite <- Hx in H1, H2. split; nra.
Qed.

Lemma quotient_exponent_ge : -1074 <= e /\ l - 52 <= e.
Proof. unfold quotient_exponent. lia. Qed.

Lemma quotient_exponent_cases : e = l - 52 \/ (e = -1074 /\ l - 52 < -1074).
Proof. unfold quotient_exponent. lia. Qed.

(** [k * s <= x] on the integers *)
Lemma quotient_le_iff k : k * D <= N <-> (inject_Z k * s <= x)%Q.
Proof.
  pose proof quotient_scaled as H. pose proof quotient_s_pos as Ps.
  pose proof (inject_Z_lt 0 D quotient_D_pos) as Pd. change (inject_Z 0) with 0%Q in Pd.
  rewrite Zle_Qle, inject_Z_mult.
  rewrite <- (Qmult_le_r _ _ s Ps), <- (Qmult_le_r (inject_Z k * s) x (inject_Z D) Pd).
  rewrite H.
  assert (inject_Z k * inject_Z D * s == inject_Z k * s * inject_Z D)%Q as -> by ring.
  reflexivity.
Qed.

Lemma quotient_ge_iff k : N <= k * D <-> (x <= inject_Z k * s)%Q.
Proof.
  pose proof quotient_scaled as H. pose proof quotient_s_pos as Ps.
  pose proof (inject_Z_lt 0 D quotient_D_pos) as Pd. change (inject_Z 0) with 0%Q in Pd.
  rewrite Zle_Qle, inject_Z_mult.
  rewrite <- (Qmult_le_r _ _ s Ps), <- (Qmult_le_r x (inject_Z k * s) (inject_Z D) Pd).
  rewrite H.
  assert (inject_Z k * inject_Z D * s == inject_Z k * s * inject_Z D)%Q as -> by ring.
  reflexivity.
Qed.

Lemma pow2_52_s : e = l - 52 -> (inject_Z (2 ^ 52) * s == 2 ^ l)%Q.
Proof.
  intros E. rewrite pow2_inject by lia. rewrite <- pow2_add.
  replace (52 + e) with l by lia. reflexivity.
Qed.

Lemma pow2_53_s : (2 * 2 ^ l <= inject_Z (2 ^ 53) * s)%Q.
Proof.
  rewrite pow2_inject by lia. rewrite <- pow2_add, <- pow2_succ.
  apply pow2_le. pose proof quotient_exponent_ge. lia.
Qed.

Lemma quotient_mantissa_bounds :
  0 <= n <= 2 ^ 53 /\ (-1074 < e -> 2 ^ 52 <= n).
Proof.
  pose proof quotient_D_pos as Pd. pose proof quotient_binade as [B1 B2].
  rewrite quotient_mantissa_eq. split; [split |].
  - apply round_half_even_ge; [assumption |]. apply quotient_le_iff.
    pose proof (pow2_pos l). change (inject_Z 0) with 0%Q. lra.
  - apply round_half_even_le; [assumption |]. apply quotient_ge_iff.
    pose proof pow2_53_s. lra.
  - intros He. apply round_half_even_ge; [assumption |]. apply quotient_le_iff.
    rewrite pow2_52_s; [assumption |]. destruct quotient_exponent_cases; lia.
Qed.

(** A float of a smaller exponent lies below the binade of the quotient. *)
Lemma quotient_below k e' :
  Z.abs k < 2 ^ 53 -> e' < e -> (inject_Z k * 2 ^ e' < inject_Z (2 ^ 52) * s)%Q.
Proof.
  intros Hk He.
  assert (inject_Z k < inject_Z (2 ^ 53))%Q as K by (apply inject_Z_lt; lia).
  assert (inject_Z (2 ^ 53) == 2 * inject_Z (2 ^ 52))%Q as E by reflexivity.
  assert (2 ^ e' <= 2 ^ (e - 1))%Q as P by (apply pow2_le; lia).
  assert (2 * 2 ^ (e - 1) == s)%Q as S.
  { rewrite <- pow2_succ. replace (e - 1 + 1) with e by lia. reflexivity. }
  pose proof (pow2_pos e'). pose proof (pow2_pos (e - 1)).
  assert (0 < inject_Z (2 ^ 52))%Q by reflexivity.
  destruct (Qlt_le_dec 0 (inject_Z k)); nra.
Qed.

Lemma quotient_grid k e' :
  e <= e' -> (inject_Z (k * 2 ^ (e' - e)) * s == inject_Z k * 2 ^ e')%Q.
Proof.
  intros He. rewrite inject_Z_mult, pow2_inject by lia.
  rewrite <- Qmult_assoc, <- pow2_add. replace (e' - e + e) with e' by lia. reflexivity.
Qed.

Lemma quotient_nearest k e' :
  Z.abs k < 2 ^ 53 -> -1074 <= e' ->
  (Qabs (inject_Z n * s - x) <= Qabs (inject_Z k * 2 ^ e' - x))%Q /\
  ((Qabs (inject_Z n * s - x) == Qabs (inject_Z k * 2 ^ e' - x))%Q ->
   ~ (inject_Z k * 2 ^ e' == inject_Z n * s)%Q -> Z.even n = true).
Proof.
  intros Hk He'. rewrite quotient_mantissa_eq.
  destruct (Z_le_gt_dec e e') as [Hle | Hgt].
  - rewrite <- (quotient_grid k e' Hle). split.
    + apply grid_nearest; [apply quotient_D_pos | apply quotient_s_pos | apply quotient_scaled].
    + intros Heq Hne.
      apply (grid_tie x s N D (k * 2 ^ (e' - e)));
        [apply quotient_D_pos | apply quotient_s_pos | apply quotient_scaled | exact Heq |].
      intros E. apply Hne. rewrite E. reflexivity.
  - assert (e = l - 52) as El by (destruct quotient_exponent_cases; lia).
    pose proof (quotient_below k e' Hk ltac:(lia)) as Hlt.
    pose proof (grid_nearest x s N D (2 ^ 52) quotient_D_pos quotient_s_pos quotient_scaled) as Hn.
    pose proof quotient_binade as [B1 _]. rewrite <- (pow2_52_s El) in B1.
    rewrite (Qabs_neg (inject_Z (2 ^ 52) * s - x)) in Hn by lra.
    rewrite (Qabs_neg (inject_Z k * 2 ^ e' - x)) by lra.
    split; [lra |]. intros Heq. lra.
Qed.

(** The quotients that are too large for a float. *)
Lemma quotient_overflow :
  (971 < e \/ (e = 971 /\ n = 2 ^ 53)) <-> (2 ^ 1024 - 2 ^ 970 <= x)%Q.
Proof.
  pose proof quotient_D_pos as Pd. pose proof quotient_binade as [B1 B2].
  pose proof quotient_mantissa_bounds as [[M1 M2] M3].
  assert (2 ^ 1024 == inject_Z (2 ^ 54) * 2 ^ 970)%Q as T.
  { rewrite pow2_inject by lia. rewrite <- pow2_add. reflexivity. }
  pose proof (pow2_pos 970) as P970.
  assert (e = 971 -> (inject_Z (2 ^ 54 - 1) * 2 ^ 970 * 2 == inject_Z (2 * 2 ^ 53 - 1) * s)%Q) as S971.
  { intros E. rewrite E. change 971 with (970 + 1). rewrite pow2_succ.
    change (2 * 2 ^ 53 - 1) with (2 ^ 54 - 1). ring. }
  assert (inject_Z (2 ^ 54 - 1) == inject_Z (2 ^ 54) - 1)%Q as T54 by reflexivity.
  assert (0 < s)%Q as Ps by apply quotient_s_pos.
  assert (inject_Z (2 * N) == 2 * inject_Z N)%Q as N2 by (rewrite inject_Z_mult; reflexivity).
  pose proof quotient_scaled as Hs.
  pose proof (inject_Z_lt 0 D Pd) as PD. change (inject_Z 0) with 0%Q in PD.
  assert (e = 971 -> (2 * 2 ^ 53 - 1) * D <= 2 * N <-> (2 ^ 1024 - 2 ^ 970 <= x)%Q) as Iff.
  { intros E. specialize (S971 E).
    rewrite Zle_Qle, inject_Z_mult, N2.
    rewrite <- (Qmult_le_r _ _ s Ps).
    assert (inject_Z (2 * 2 ^ 53 - 1) * inject_Z D * s
            == (2 ^ 1024 - 2 ^ 970) * 2 * inject_Z D)%Q as ->.
    { rewrite T. transitivity (inject_Z (2 * 2 ^ 53 - 1) * s * inject_Z D)%Q; [ring |].
      rewrite <- S971, T54. ring. }
    assert (2 * inject_Z N * s == x * 2 * inject_Z D)%Q as ->.
    { transitivity (2 * (inject_Z N * s))%Q; [ring |]. rewrite <- Hs. ring. }
    rewrite (Qmult_le_r _ _ (inject_Z D) PD).
    rewrite (Qmult_le_r _ _ 2); [reflexivity | reflexivity]. }
  split.
  - intros [He | [He Hn]].
    + assert (e = l - 52) as El by (destruct quotient_exponent_cases; lia).
      assert (2 ^ 1024 <= 2 ^ l)%Q by (apply pow2_le; lia). lra.
    + apply (Iff He). rewrite quotient_mantissa_eq in Hn.
      pose proof (round_half_even_half N D Pd) as H. rewrite Hn in H. lia.
  - intros Hx'. destruct (Z_lt_ge_dec 971 e) as [| He]; [left; assumption | right].
    assert (e = 971) as E.
    { destruct (Z.eq_dec e 971) as [| Hne]; [assumption | exfalso].
      assert (2 * 2 ^ l <= 2 ^ 1023)%Q.
      { rewrite <- pow2_succ. apply pow2_le. pose proof quotient_exponent_ge. lia. }
      assert (2 ^ 1024 == 2 * 2 ^ 1023)%Q as T2 by (rewrite <- pow2_succ; reflexivity).
      assert (2 ^ 1023 == inject_Z (2 ^ 53) * 2 ^ 970)%Q as T3.
      { rewrite pow2_inject by lia. rewrite <- pow2_add. reflexivity. }
      assert (1 < inject_Z (2 ^ 53))%Q by reflexivity.
      nra. }
    split; [assumption |].
    apply (Iff E) in Hx'. rewrite quotient_mantissa_eq in M2 |- *.
    pose proof (round_half_even_up N D (2 ^ 53) Pd eq_refl Hx'). lia.
Qed.

End Quotient.

(** *** Floats as rational numbers *)

Lemma digits2_pos_size p : digits2_pos p = Pos.size p.
Proof. induction p as [p IH | p IH |]; simpl; congruence. Qed.

Lemma digits2_pos_log2 p : Z.pos (digits2_pos p) = Z.log2 (Z.pos p) + 1.
Proof.
  rewrite digits2_pos_size. destruct p as [p | p |]; simpl; lia.
Qed.

Lemma valid_binary_finite s p e :
  Z.pos p < 2 ^ 53 -> -1074 <= e <= 971 -> (Z.pos p < 2 ^ 52 -> e = -1074) ->
  valid_binary 53 1024 (S754_finite s p e) = true.
Proof.
  intros Hp He Hsub. unfold valid_binary, bounded, canonical_mantissa, fexp, emin.
  rewrite digits2_pos_log2.
  assert (Z.log2 (Z.pos p) < 53) as Hlt by (apply Z.log2_lt_pow2; lia).
  assert (Z.pos p < 2 ^ 52 \/ 52 <= Z.log2 (Z.pos p)) as [Hs | Hn].
  { destruct (Z_lt_ge_dec (Z.pos p) (2 ^ 52)); [left; assumption | right].
    apply Z.log2_le_pow2; lia. }
  - apply andb_true_intro. split; [apply Z.eqb_eq | apply Z.leb_le]; lia.
  - apply andb_true_intro. split; [apply Z.eqb_eq | apply Z.leb_le]; lia.
Qed.

Lemma float_val_finite s p e :
  exists v, float_val (S754_finite s p e) = Fin v /\
    (v == inject_Z (if s then Z.neg p else Z.pos p) * 2 ^ e)%Q.
Proof.
  unfold float_val. set (n := if s then Z.neg p else Z.pos p).
  destruct e as [| k | k]; eexists; (split; [reflexivity |]).
  - change (2 ^ 0)%Q with 1%Q. rewrite Z.mul_1_r. unfold inject_Z. ring.
  - change (n * 2 ^ Z.pos k # 1)%Q with (inject_Z (n * 2 ^ Z.pos k)).
    rewrite inject_Z_mult, pow2_inject by lia. reflexivity.
  - rewrite Qmake_Qdiv, Pos2Z.inj_pow, pow2_inject by lia.
    change (Z.neg k) with (- Z.pos k). rewrite Qpower_opp. reflexivity.
Qed.

(** The rounding of a quotient and of its opposite. *)
Lemma rounding_signed (neg : bool) (x q v : Q) (m e : Z) (P : Prop) :
  (q == if neg then - x else x)%Q ->
  (v == if neg then - (inject_Z m * 2 ^ e) else inject_Z m * 2 ^ e)%Q ->
  (forall k e', Z.abs k < 2 ^ 53 -> -1074 <= e' ->
     (Qabs (inject_Z m * 2 ^ e - x) <= Qabs (inject_Z k * 2 ^ e' - x))%Q /\
     ((Qabs (inject_Z m * 2 ^ e - x) == Qabs (inject_Z k * 2 ^ e' - x))%Q ->
      ~ (inject_Z k * 2 ^ e' == inject_Z m * 2 ^ e)%Q -> P)) ->
  forall y, binary64 y ->
    (Qabs (v - q) <= Qabs (y - q))%Q /\
    ((Qabs (v - q) == Qabs (y - q))%Q -> ~ (y == v)%Q -> P).
Proof.
  intros Hq Hv H y (k & e' & Hk & He' & Hy). rewrite Hq, Hv, Hy. destruct neg.
  - destruct (H (- k) e') as [H1 H2]; [lia | lia |].
    assert (- (inject_Z m * 2 ^ e) - - x == - (inject_Z m * 2 ^ e - x))%Q as -> by ring.
    assert (inject_Z k * 2 ^ e' - - x == - (inject_Z (- k) * 2 ^ e' - x))%Q as ->
      by (rewrite inject_Z_opp; ring).
    rewrite !Qabs_opp. split; [assumption |].
    intros Heq Hne. apply H2; [assumption |].
    intros E. apply Hne. rewrite <- E, inject_Z_opp. ring.
  - apply H; lia.
Qed.

Lemma quotient_signed n d :
  n <> 0 -> d <> 0 ->
  (inject_Z n / inject_Z d ==
   if xorb (n <? 0) (d <? 0)
   then - (inject_Z (Z.abs n) / inject_Z (Z.abs d))
   else inject_Z (Z.abs n) / inject_Z (Z.abs d))%Q.
Proof.
  intros Hn Hd.
  assert (forall z, z <> 0 -> ~ (inject_Z z == 0)%Q) as NZ.
  { intros z Hz E. apply (inject_Z_injective z 0) in E. contradiction. }
  destruct (Z.ltb_spec n 0), (Z.ltb_spec d 0); simpl;
    rewrite ?(Z.abs_neq n), ?(Z.abs_neq d), ?(Z.abs_eq n), ?(Z.abs_eq d) by lia;
    rewrite ?inject_Z_opp; field; auto.
Qed.

(** *** Rounding a quotient to a float *)

Lemma is_rounding_zero (neg : bool) (q : Q) :
  (q == 0)%Q -> is_rounding q (S754_zero neg).
Proof.
  intros E. split; [reflexivity |]. exists 0%Q. split; [reflexivity |].
  intros y _. rewrite E.
  assert (Qabs (0 - 0) == 0)%Q as -> by reflexivity.
  split; [apply Qabs_nonneg | reflexivity].
Qed.

(** The quotient of two positive integers is rounded to the nearest float,
    half way to the even one, and to no float from the middle of the
    largest float and the power of two above it. *)
Lemma round_quotient_rounds (neg : bool) (a b : Z) (x q : Q) :
  0 < a -> 0 < b -> (x * inject_Z b == inject_Z a)%Q ->
  (q == if neg then - x else x)%Q ->
  ((x < 2 ^ 1024 - 2 ^ 970)%Q ->
   exists f, round_quotient neg a b = Some f /\
     is_rounding q f /\ float_sign f = neg /\
     (b <= a -> float_is_zero f = false)) /\
  ((2 ^ 1024 - 2 ^ 970 <= x)%Q -> round_quotient neg a b = None).
Proof.
  intros Ha Hb Hx Hq. unfold round_quotient.
  pose proof (quotient_exponent_ge a b) as [E1 E0].
  pose proof (quotient_mantissa_bounds a b x Ha Hb Hx) as [[M1 M2] M3].
  pose proof (quotient_overflow a b x Ha Hb Hx) as Hov.
  pose proof (quotient_nearest a b x Ha Hb Hx) as Hnear.
  pose proof (quotient_binade a b x Ha Hb Hx) as [_ B2].
  set (e0 := quotient_exponent a b) in *. set (n0 := quotient_mantissa a b) in *.
  split.
  - intros Hlt.
    assert (e0 <= 971 /\ (e0 = 971 -> n0 <> 2 ^ 53)) as [E2 E3].
    { split; [destruct (Z_le_gt_dec e0 971); [assumption |] | intros ? ?];
        exfalso; apply (Qlt_not_le _ _ Hlt), Hov; [left | right]; lia. }
    assert (b <= a -> 2 ^ 52 <= n0) as Hnz.
    { intros Hba. apply M3.
      destruct (Z_lt_ge_dec (quotient_log2 a b) 0) as [Hl |]; [exfalso | lia].
      assert (2 ^ quotient_log2 a b <= 2 ^ (-1))%Q as P by (apply pow2_le; lia).
      change (2 ^ (-1))%Q with (1 # 2)%Q in P.
      pose proof (inject_Z_le b a Hba) as Q1. pose proof (inject_Z_lt 0 b Hb) as Q2.
      change (inject_Z 0) with 0%Q in Q2. nra. }
    assert (exists m e, (if n0 =? 2 ^ 53 then (2 ^ 52, e0 + 1) else (n0, e0)) = (m, e) /\
              0 <= m < 2 ^ 53 /\ -1074 <= e <= 971 /\ (0 < m < 2 ^ 52 -> e = -1074) /\
              (inject_Z m * 2 ^ e == inject_Z n0 * 2 ^ e0)%Q /\
              (Z.even n0 = true -> Z.even m = true) /\
              (2 ^ 52 <= n0 -> 0 < m))
      as (m & e & -> & Hm & He & Hsub & Hval & Hev & Hpos).
    { destruct (Z.eqb_spec n0 (2 ^ 53)) as [E | E]; eexists _, _; (split; [reflexivity |]).
      - split; [lia |]. split; [lia |]. split; [lia |]. split; [| split; [reflexivity | lia]].
        rewrite E, pow2_succ. change (inject_Z (2 ^ 53)) with (2 * inject_Z (2 ^ 52))%Q. ring.
      - split; [lia |]. split; [lia |]. split; [lia |].
        split; [reflexivity |]. split; [tauto | lia]. }
    destruct m as [| p | p]; [| | lia].
    + eexists. split; [reflexivity |]. split; [| split; [reflexivity | intros; lia]].
      split; [reflexivity |]. exists 0%Q. split; [reflexivity |].
      apply (rounding_signed neg x _ 0%Q 0 e); [exact Hq | | ].
      { destruct neg; change (inject_Z 0) with 0%Q; ring. }
      intros k e' Hk He'. rewrite Hval. destruct (Hnear k e' Hk He') as [H1 H2].
      split; [exact H1 | reflexivity].
    + destruct (Z.leb_spec e 971); [| lia].
      eexists. split; [reflexivity |]. split; [| split; reflexivity].
      split; [apply valid_binary_finite; lia |].
      destruct (float_val_finite neg p e) as (v & -> & Hv).
      exists v. split; [reflexivity |].
      apply (rounding_signed neg x _ v (Z.pos p) e); [exact Hq | | ].
      { rewrite Hv. destruct neg; [| reflexivity].
        change (Z.neg p) with (- Z.pos p). rewrite inject_Z_opp. ring. }
      intros k e' Hk He'. rewrite Hval. destruct (Hnear k e' Hk He') as [H1 H2].
      split; [exact H1 |]. intros Heq Hne. apply Hev, H2; assumption.
  - intros Hge. apply Hov in Hge.
    destruct (Z.eqb_spec n0 (2 ^ 53)) as [E | E].
    + change (2 ^ 52) with (Z.pos (2 ^ 52)%positive).
      destruct (Z.leb_spec (e0 + 1) 971); [lia | reflexivity].
    + assert (971 < e0) as E2 by lia. specialize (M3 ltac:(lia)).
      destruct n0 as [| p | p]; [lia | | lia].
      destruct (Z.leb_spec e0 971); [lia | reflexivity].
Qed.

Lemma overflow_threshold_pos : (0 < 2 ^ 1024 - 2 ^ 970)%Q.
Proof.
  assert (2 ^ 970 < 2 ^ 1024)%Q by (apply Qpower_lt_compat_l; [lia | reflexivity]). lra.
Qed.

(** *** Division and conversion of integers *)

(** [n / d] on integers is the exact quotient rounded to a float, and an
    [OverflowError] where no float is its rounding. *)
Lemma int_truediv_rounds n d :
  d <> 0 ->
  ((Qabs (inject_Z n / inject_Z d) < 2 ^ 1024 - 2 ^ 970)%Q ->
   exists f, int_truediv n d = Ok f /\
     is_rounding (inject_Z n / inject_Z d) f /\
     float_sign f = xorb (n <? 0) (d <? 0)) /\
  ((2 ^ 1024 - 2 ^ 970 <= Qabs (inject_Z n / inject_Z d))%Q ->
   int_truediv n d
   = Raise (ArithmeticError
              (OverflowError "integer division result too large for a float"))).
Proof.
  intros Hd. unfold int_truediv. destruct (Z.eqb_spec d 0) as [| _]; [contradiction |].
  pose proof overflow_threshold_pos as HT.
  destruct (Z.eqb_spec n 0) as [-> | Hn].
  - assert (inject_Z 0 / inject_Z d == 0)%Q as E by (unfold Qdiv; ring).
    split.
    + intros _. eexists. split; [reflexivity |]. split; [| reflexivity].
      apply is_rounding_zero, E.
    + rewrite E. change (Qabs 0) with 0%Q. lra.
  - set (a := Z.abs n). set (b := Z.abs d).
    set (x := (inject_Z a / inject_Z b)%Q).
    assert (0 < a) as Ha by (unfold a; lia).
    assert (0 < b) as Hb by (unfold b; lia).
    assert (0 < inject_Z b)%Q as Pb by (apply (inject_Z_lt 0 b Hb)).
    assert (0 < inject_Z a)%Q as Pa by (apply (inject_Z_lt 0 a Ha)).
    assert (x * inject_Z b == inject_Z a)%Q as Hx by (unfold x; field; lra).
    pose proof (quotient_signed n d Hn Hd) as Hq. fold a b x in Hq.
    assert (0 < x)%Q as Px by (apply Qlt_shift_div_l; lra).
    assert (Qabs (inject_Z n / inject_Z d) == x)%Q as Habs.
    { rewrite Hq. destruct (xorb (n <? 0) (d <? 0)); rewrite ?Qabs_opp; apply Qabs_pos; lra. }
    rewrite Habs.
    destruct (round_quotient_rounds (xorb (n <? 0) (d <? 0)) a b x _ Ha Hb Hx Hq) as [R1 R2].
    split.
    + intros Hlt. destruct (R1 Hlt) as (f & -> & Hf & Hs & _). eauto.
    + intros Hge. rewrite (R2 Hge). reflexivity.
Qed.

(** The conversion of an integer to a float rounds it, and is an
    [OverflowError] where no float is its rounding. *)
Lemma int_to_float_rounds n :
  ((Qabs (inject_Z n) < 2 ^ 1024 - 2 ^ 970)%Q ->
   exists f, int_to_float n = Ok f /\
     is_rounding (inject_Z n) f /\ float_sign f = (n <? 0) /\
     (n <> 0 -> float_is_zero f = false)) /\
  ((2 ^ 1024 - 2 ^ 970 <= Qabs (inject_Z n))%Q ->
   int_to_float n
   = Raise (ArithmeticError (OverflowError "int too large to convert to float"))).
Proof.
  unfold int_to_float. pose proof overflow_threshold_pos as HT.
  destruct (Z.eqb_spec n 0) as [-> | Hn].
  - split.
    + intros _. eexists. split; [reflexivity |]. split; [| split; [reflexivity | tauto]].
      apply is_rounding_zero. reflexivity.
    + change (Qabs (inject_Z 0)) with 0%Q. lra.
  - set (a := Z.abs n). set (x := inject_Z a).
    assert (0 < a) as Ha by (unfold a; lia).
    assert (x * inject_Z 1 == inject_Z a)%Q as Hx by (unfold x; change (inject_Z 1) with 1%Q; ring).
    assert (inject_Z n == if n <? 0 then - x else x)%Q as Hq.
    { unfold x, a. destruct (Z.ltb_spec n 0).
      - rewrite Z.abs_neq, inject_Z_opp by lia. ring.
      - rewrite Z.abs_eq by lia. reflexivity. }
    assert (Qabs (inject_Z n) == x)%Q as -> by reflexivity.
    destruct (round_quotient_rounds (n <? 0) a 1 x _ Ha eq_refl Hx Hq) as [R1 R2].
    split.
    + intros Hlt. destruct (R1 Hlt) as (f & -> & Hf & Hs & Hz).
      exists f. split; [reflexivity |]. split; [assumption |]. split; [assumption |].
      intros _. apply Hz. lia.
    + intros Hge. rewrite (R2 Hge). reflexivity.
Qed.

(** A float that is the rounding of a float is exactly that number. *)
Lemma is_rounding_exact q f :
  is_rounding q f -> binary64 q -> exists x, float_val f = Fin x /\ (x == q)%Q.
Proof.
  intros (_ & x & Hx & H) Hq. exists x. split; [assumption |].
  destruct (H q Hq) as [Hle _].
  assert (Qabs (q - q) == 0)%Q as E by (rewrite Qabs_wd with (y := 0%Q); [reflexivity | ring]).
  rewrite E in Hle. apply Qabs_Qle_condition in Hle. lra.
Qed.

Lemma float_divisor_not_zero o f :
  py_eq (VFloat o f) (VInt 0) = false -> float_is_zero f = false.
Proof. destruct f; [discriminate | reflexivity | reflexivity | reflexivity]. Qed.

Lemma int_divisor_not_zero d : py_eq (VInt d) (VInt 0) = false -> d <> 0.
Proof. intros H ->. discriminate. Qed.

(** C9, amended.  DIV on [int] and [float] operands with a divisor that is
    not zero is true division and never integer division: it returns a
    float or raises an arithmetic error.
    - On two [int]s the float is the exact quotient, rounded once: no float
      is nearer to [a / b], and its mantissa is even when another float is
      as near; it has the sign of the quotient, and it is exactly [a / b]
      when [a / b] is a float.  From the middle of the largest float and
      [2 ** 1024] on, the call raises [OverflowError].
    - With a [float] operand, an [int] operand is rounded to a float first,
      with an [OverflowError] in the same way, and the result is the
      IEEE 754 quotient of the two floats.  This is a second rounding: the
      result need not be the float nearest to the quotient of the
      operands. *)
Theorem C9_div_true_division a b :
  is_complex a = false -> is_complex b = false ->
  py_eq b (VInt 0) = false ->
  ((exists o f, div a b = Ok (VFloat o f)) \/
   (exists e, div a b = Raise (ArithmeticError e))) /\
  (forall n d, a = VInt n -> b = VInt d ->
     ((Qabs (inject_Z n / inject_Z d) < 2 ^ 1024 - 2 ^ 970)%Q ->
      exists f,
        div a b = Ok (VFloat (Result OpTrueDiv a b) f) /\
        is_rounding (inject_Z n / inject_Z d) f /\
        float_sign f = xorb (n <? 0) (d <? 0) /\
        (binary64 (inject_Z n / inject_Z d) -> is_exact_quotient n d (div a b))) /\
     ((2 ^ 1024 - 2 ^ 970 <= Qabs (inject_Z n / inject_Z d))%Q ->
      div a b
      = Raise (ArithmeticError
                 (OverflowError "integer division result too large for a float")))) /\
  (forall oa fa ob fb, a = VFloat oa fa -> b = VFloat ob fb ->
     div a b = Ok (VFloat (Result OpTrueDiv a b) (SFdiv 53 1024 fa fb))) /\
  (forall n ob fb, a = VInt n -> b = VFloat ob fb ->
     ((Qabs (inject_Z n) < 2 ^ 1024 - 2 ^ 970)%Q ->
      exists fa,
        is_rounding (inject_Z n) fa /\ float_sign fa = (n <? 0) /\
        div a b = Ok (VFloat (Result OpTrueDiv a b) (SFdiv 53 1024 fa fb))) /\
     ((2 ^ 1024 - 2 ^ 970 <= Qabs (inject_Z n))%Q ->
      div a b
      = Raise (ArithmeticError (OverflowError "int too large to convert to float")))) /\
  (forall oa fa d, a = VFloat oa fa -> b = VInt d ->
     ((Qabs (inject_Z d) < 2 ^ 1024 - 2 ^ 970)%Q ->
      exists fb,
        is_rounding (inject_Z d) fb /\ float_sign fb = (d <? 0) /\
        div a b = Ok (VFloat (Result OpTrueDiv a b) (SFdiv 53 1024 fa fb))) /\
     ((2 ^ 1024 - 2 ^ 970 <= Qabs (inject_Z d))%Q ->
      div a b
      = Raise (ArithmeticError (OverflowError "int too large to convert to float")))).
Proof.
  intros Ha Hb Hz.
  assert (Hdiv : div a b = py_truediv a b) by (unfold div; rewrite Hz; reflexivity).
  rewrite Hdiv. clear Hdiv.
  assert (Hints : forall n d, a = VInt n -> b = VInt d ->
     ((Qabs (inject_Z n / inject_Z d) < 2 ^ 1024 - 2 ^ 970)%Q ->
      exists f,
        py_truediv a b = Ok (VFloat (Result OpTrueDiv a b) f) /\
        is_rounding (inject_Z n / inject_Z d) f /\
        float_sign f = xorb (n <? 0) (d <? 0) /\
        (binary64 (inject_Z n / inject_Z d) -> is_exact_quotient n d (py_truediv a b))) /\
     ((2 ^ 1024 - 2 ^ 970 <= Qabs (inject_Z n / inject_Z d))%Q ->
      py_truediv a b
      = Raise (ArithmeticError
                 (OverflowError "integer division result too large for a float")))).
  { intros n d -> ->. pose proof (int_divisor_not_zero d Hz) as Hd.
    destruct (int_truediv_rounds n d Hd) as [R1 R2]. unfold py_truediv. split.
    - intros Hlt. destruct (R1 Hlt) as (f & -> & Hr & Hs). exists f.
      split; [reflexivity |]. split; [exact Hr |]. split; [exact Hs |].
      intros Hq. destruct (is_rounding_exact _ _ Hr Hq) as (x & Hx & Hxq).
      eexists _, x. split; [reflexivity |]. split; [| exact Hxq].
      unfold value_num. rewrite Hx. reflexivity.
    - intros Hge. rewrite (R2 Hge). reflexivity. }
  assert (Hfloats : forall oa fa ob fb, a = VFloat oa fa -> b = VFloat ob fb ->
     py_truediv a b = Ok (VFloat (Result OpTrueDiv a b) (SFdiv 53 1024 fa fb))).
  { intros oa fa ob fb -> ->. unfold py_truediv, float_op, to_float, result_bind, float_truediv.
    rewrite (float_divisor_not_zero ob fb Hz). reflexivity. }
  assert (Hleft : forall n ob fb, a = VInt n -> b = VFloat ob fb ->
     ((Qabs (inject_Z n) < 2 ^ 1024 - 2 ^ 970)%Q ->
      exists fa,
        is_rounding (inject_Z n) fa /\ float_sign fa = (n <? 0) /\
        py_truediv a b = Ok (VFloat (Result OpTrueDiv a b) (SFdiv 53 1024 fa fb))) /\
     ((2 ^ 1024 - 2 ^ 970 <= Qabs (inject_Z n))%Q ->
      py_truediv a b
      = Raise (ArithmeticError (OverflowError "int too large to convert to float")))).
  { intros n ob fb -> ->. destruct (int_to_float_rounds n) as [R1 R2].
    unfold py_truediv, float_op, to_float. split.
    - intros Hlt. destruct (R1 Hlt) as (fa & -> & Hr & Hs & _). exists fa.
      split; [exact Hr |]. split; [exact Hs |].
      unfold result_bind, float_truediv. rewrite (float_divisor_not_zero ob fb Hz). reflexivity.
    - intros Hge. rewrite (R2 Hge). reflexivity. }
  assert (Hright : forall oa fa d, a = VFloat oa fa -> b = VInt d ->
     ((Qabs (inject_Z d) < 2 ^ 1024 - 2 ^ 970)%Q ->
      exists fb,
        is_rounding (inject_Z d) fb /\ float_sign fb = (d <? 0) /\
        py_truediv a b = Ok (VFloat (Result OpTrueDiv a b) (SFdiv 53 1024 fa fb))) /\
     ((2 ^ 1024 - 2 ^ 970 <= Qabs (inject_Z d))%Q ->
      py_truediv a b
      = Raise (ArithmeticError (OverflowError "int too large to convert to float")))).
  { intros oa fa d -> ->. pose proof (int_divisor_not_zero d Hz) as Hd.
    destruct (int_to_float_rounds d) as [R1 R2].
    unfold py_truediv, float_op, to_float. split.
    - intros Hlt. destruct (R1 Hlt) as (fb & -> & Hr & Hs & Hnz). exists fb.
      split; [exact Hr |]. split; [exact Hs |].
      unfold result_bind, float_truediv. rewrite (Hnz Hd). reflexivity.
    - intros Hge. rewrite (R2 Hge). reflexivity. }
  split; [| split; [exact Hints | split; [exact Hfloats | split; [exact Hleft | exact Hright]]]].
  destruct a as [n | oa fa |]; [| | discriminate];
    destruct b as [d | ob fb |]; try discriminate.
  - destruct (Hints n d eq_refl eq_refl) as [R1 R2].
    destruct (Qlt_le_dec (Qabs (inject_Z n / inject_Z d)) (2 ^ 1024 - 2 ^ 970)) as [H | H].
    + destruct (R1 H) as (f & -> & _). eauto.
    + rewrite (R2 H). eauto.
  - destruct (Hleft n ob fb eq_refl eq_refl) as [R1 R2].
    destruct (Qlt_le_dec (Qabs (inject_Z n)) (2 ^ 1024 - 2 ^ 970)) as [H | H].
    + destruct (R1 H) as (f & _ & _ & ->). eauto.
    + rewrite (R2 H). eauto.
  - destruct (Hright oa fa d eq_refl eq_refl) as [R1 R2].
    destruct (Qlt_le_dec (Qabs (inject_Z d)) (2 ^ 1024 - 2 ^ 970)) as [H | H].
    + destruct (R1 H) as (f & _ & _ & ->). eauto.
    + rewrite (R2 H). eauto.
  - rewrite (Hfloats oa fa ob fb eq_refl eq_refl). eauto.
Qed.

(** ** Further properties of the register file *)

(** X1. A value loaded into a register is read back by [get_register];
    the other registers and the cache are as before the load. *)
Theorem X1_load_get_register s reg_index v :
  0 <= reg_index < Z.of_nat (length (registers s)) ->
  exists s',
    load reg_index v s = (Ok tt, s', []) /\
    get_register reg_index s' = (Ok v, s', []) /\
    cache s' = cache s /\
    forall j, j <> reg_index ->
      (get_register j s').1.1 = (get_register j s).1.1.
Proof.
  intros Hi. rewrite load_eq.
  replace ((0 <=? reg_index) && (reg_index <? Z.of_nat (length (registers s))))
    with true by lia.
  eexists. split; [reflexivity |]. split; [| split; [reflexivity |]].
  - rewrite get_register_eq. simpl. rewrite length_insert.
    replace ((0 <=? reg_index) && (reg_index <? Z.of_nat (length (registers s))))
      with true by lia.
    rewrite list_getitem_insert_eq by (apply list_index_in_range; lia).
    reflexivity.
  - intros j Hj. rewrite !get_register_eq. simpl. rewrite length_insert.
    destruct ((0 <=? j) && (j <? Z.of_nat (length (registers s)))) eqn:E;
      [| reflexivity].
    simpl. apply list_getitem_insert_ne.
    rewrite list_index_in_range by lia. intros [= H]. lia.
Qed.

(** X3. The register file keeps its size: every reachable machine has
    exactly four registers. *)
Theorem X3_four_registers s : reachable s -> length (registers s) = 4%nat.
Proof. intros Hs. apply (reachable_invariant s Hs). Qed.

(** X2. On a reachable machine [load] and [get_register] accept exactly the
    indices 0..3: with such an index both return, and [get_register] changes
    nothing; with any other index both raise the invalid-register-index
    error, print nothing and leave the machine as it was. *)
Theorem X2_index_validation s reg_index v :
  reachable s ->
  (0 <= reg_index < 4 ->
   (exists s', load reg_index v s = (Ok tt, s', [])) /\
   (exists x, get_register reg_index s = (Ok x, s, []))) /\
  (~ 0 <= reg_index < 4 ->
   load reg_index v s = (Raise (ValueError "Invalid register index"), s, []) /\
   get_register reg_index s = (Raise (ValueError "Invalid register index"), s, [])).
Proof.
  intros Hs. destruct (reachable_invariant s Hs) as (Hlen & _).
  pose proof (load_index_check s reg_index v Hlen) as Hload.
  pose proof (get_register_index_check s reg_index Hlen) as Hget.
  destruct ((0 <=? reg_index) && (reg_index <? 4)) eqn:E.
  - split; [| lia]. intros _. split; [eauto |].
    destruct Hget as (x & _ & Hx). eauto.
  - split; [lia |]. intros _. split; assumption.
Qed.

(** X8. After a call of [control_unit] that returns, [get_register] on the
    destination index (in 0..3 of the register list) reads the returned
    result. *)
Theorem X8_result_readable instruction reg_a_index reg_b_index dest_reg_index
    s r s' out :
  control_unit instruction reg_a_index reg_b_index dest_reg_index s = (Ok r, s', out) ->
  0 <= target_reg reg_a_index dest_reg_index < Z.of_nat (length (registers s)) ->
  get_register (target_reg reg_a_index dest_reg_index) s' = (Ok r, s', []).
Proof.
  intros H Ht.
  destruct (control_unit_Ok_inv _ _ _ _ _ _ _ _ H) as (a & b & n & _ & _ & Hn & Hregs & _).
  rewrite get_register_eq, Hregs, length_insert.
  replace ((0 <=? target_reg reg_a_index dest_reg_index)
           && (target_reg reg_a_index dest_reg_index <? Z.of_nat (length (registers s))))
    with true by lia.
  now rewrite (list_getitem_insert_eq _ _ _ _ Hn).
Qed.

(** ** Failing calls *)

(** X4. A call of [control_unit] that raises never changes a register; and
    when its destination index addresses a register, it leaves the whole
    machine, registers and cache, as it was. *)
Theorem X4_failure_frame instruction reg_a_index reg_b_index dest_reg_index
    s e s' out :
  control_unit instruction reg_a_index reg_b_index dest_reg_index s = (Raise e, s', out) ->
  registers s' = registers s /\
  (list_index (length (registers s)) (target_reg reg_a_index dest_reg_index) <> None ->
   s' = s).
Proof.
  rewrite control_unit_eq.
  destruct (list_getitem (registers s) reg_a_index) as [a|];
    [| intros [= _ <- _]; auto].
  destruct (list_getitem (registers s) reg_b_index) as [b|];
    [| intros [= _ <- _]; auto].
  destruct (format_operands a b) as [[]|]; [| intros [= _ <- _]; auto].
  cbv zeta. unfold list_setitem.
  destruct (list_index (length (registers s)) (target_reg reg_a_index dest_reg_index))
    as [n|].
  - destruct (dict_get (cache s) (instruction, a, b)); [discriminate |].
    destruct (_alu_dispatch instruction a b); [discriminate |].
    intros [= _ <- _]. auto.
  - destruct (dict_get (cache s) (instruction, a, b)); [intros [= _ <- _]; auto |].
    destruct (_alu_dispatch instruction a b); intros [= _ <- _]; simpl; tauto.
Qed.

(** ** The cache over a sequence of calls *)

Lemma dict_get_set_persist d k0 r k v :
  dict_get d k0 = None -> dict_get d k = Some v ->
  dict_get (dict_set d k0 r) k = Some v.
Proof.
  intros Hmiss Hk. destruct (key_eqb k k0) eqn:E.
  - rewrite (dict_get_congr d k k0 E) in Hk. congruence.
  - now rewrite dict_get_set_ne.
Qed.

Lemma cache_persist_control_unit instruction reg_a_index reg_b_index dest_reg_index
    s k v :
  dict_get (cache s) k = Some v ->
  dict_get (cache (state_of (control_unit instruction reg_a_index reg_b_index
                               dest_reg_index s))) k = Some v.
Proof.
  intros Hk. rewrite control_unit_eq.
  destruct (list_getitem (registers s) reg_a_index) as [a|]; [| exact Hk].
  destruct (list_getitem (registers s) reg_b_index) as [b|]; [| exact Hk].
  destruct (format_operands a b) as [[]|]; [| exact Hk].
  cbv zeta.
  destruct (dict_get (cache s) (instruction, a, b)) as [r|] eqn:Hget.
  - destruct (list_setitem (registers s) _ r); exact Hk.
  - destruct (_alu_dispatch instruction a b) as [r|]; [| exact Hk].
    destruct (list_setitem (registers s) _ r); unfold state_of; simpl;
      now apply dict_get_set_persist.
Qed.

Lemma cache_persist s t k v :
  reaches s t -> dict_get (cache s) k = Some v -> dict_get (cache t) k = Some v.
Proof.
  intros Hst Hk. induction Hst as [| t i w _ IH | t i _ IH | t i ra rb d _ IH].
  - exact Hk.
  - rewrite load_eq.
    destruct ((0 <=? i) && (i <? Z.of_nat (length (registers t)))); exact IH.
  - rewrite get_register_eq.
    destruct ((0 <=? i) && (i <? Z.of_nat (length (registers t)))); exact IH.
  - now apply cache_persist_control_unit.
Qed.

(** X5. The cache never drops or overwrites an item: a key found in the
    cache is found with the same value after any sequence of calls of
    [load], [get_register] and [control_unit]. *)
Theorem X5_cache_items_persist s t k v :
  reaches s t -> dict_get (cache s) k = Some v -> dict_get (cache t) k = Some v.
Proof. exact (cache_persist s t k v). Qed.


(** ** Memoisation and the ALU *)

Lemma py_eq_int a b : py_eq (VInt a) (VInt b) = (a =? b).
Proof.
  unfold py_eq. simpl. rewrite andb_true_r.
  apply eq_true_iff_eq. rewrite Qeq_bool_iff, Z.eqb_eq.
  unfold Qeq. simpl. lia.
Qed.

Lemma py_is_or_eq_int a v :
  py_is_or_eq (VInt a) v = true -> is_int v = true -> v = VInt a.
Proof.
  destruct v as [b| |]; try discriminate. intros H _.
  unfold py_is_or_eq in H. rewrite py_eq_int in H.
  apply orb_true_iff in H as [H | H].
  - apply bool_decide_eq_true in H. congruence.
  - apply Z.eqb_eq in H. congruence.
Qed.

(** X6. Memoisation is sound: on a reachable machine, the result of a
    call that returns is what the ALU computes for the instruction on
    operands equal to the fetched ones. *)
Theorem X6_memoisation_sound instruction reg_a_index reg_b_index dest_reg_index
    s val_a val_b r s' out :
  reachable s ->
  list_getitem (registers s) reg_a_index = Ok val_a ->
  list_getitem (registers s) reg_b_index = Ok val_b ->
  control_unit instruction reg_a_index reg_b_index dest_reg_index s = (Ok r, s', out) ->
  exists a b,
    py_is_or_eq val_a a = true /\ py_is_or_eq val_b b = true /\
    _alu_dispatch instruction a b = Ok r.
Proof.
  intros Hs Ha Hb. destruct (reachable_invariant s Hs) as (_ & _ & Hsound).
  rewrite control_unit_eq, Ha, Hb.
  destruct (format_operands val_a val_b) as [[]|]; [| discriminate]. cbv zeta.
  destruct (dict_get (cache s) (instruction, val_a, val_b)) as [r0|] eqn:Hget.
  - destruct (list_setitem (registers s) _ r0); [| discriminate].
    intros [= -> _ _].
    destruct (dict_get_elem _ _ _ Hget) as ([[i' a'] b'] & Hin & Hk).
    simpl in Hk. apply andb_true_iff in Hk as [[Hi Hka]%andb_true_iff Hkb].
    apply String.eqb_eq in Hi. subst i'.
    exists a', b'. split; [exact Hka | split; [exact Hkb |]].
    now apply Hsound.
  - destruct (_alu_dispatch instruction val_a val_b) as [r0|] eqn:Hr; [| discriminate].
    destruct (list_setitem (registers s) _ r0); [| discriminate].
    intros [= -> _ _]. exists val_a, val_b. now rewrite !py_is_or_eq_refl.
Qed.

(** X7. On integers memoisation is exact: on a reachable machine whose
    cache keys hold only [int] operands, a call on [int] operands that
    returns, hit or miss, returns what the ALU computes for them. *)
Theorem X7_memoisation_exact_on_ints instruction reg_a_index reg_b_index
    dest_reg_index s a b r s' out :
  reachable s ->
  int_keys (cache s) ->
  list_getitem (registers s) reg_a_index = Ok (VInt a) ->
  list_getitem (registers s) reg_b_index = Ok (VInt b) ->
  control_unit instruction reg_a_index reg_b_index dest_reg_index s = (Ok r, s', out) ->
  _alu_dispatch instruction (VInt a) (VInt b) = Ok r.
Proof.
  intros Hs Hint Ha Hb. destruct (reachable_invariant s Hs) as (_ & _ & Hsound).
  rewrite control_unit_eq, Ha, Hb.
  destruct (format_operands (VInt a) (VInt b)) as [[]|]; [| discriminate]. cbv zeta.
  destruct (dict_get (cache s) (instruction, VInt a, VInt b)) as [r0|] eqn:Hget.
  - destruct (list_setitem (registers s) _ r0); [| discriminate].
    intros [= -> _ _].
    destruct (dict_get_elem _ _ _ Hget) as ([[i' a'] b'] & Hin & Hk).
    simpl in Hk. apply andb_true_iff in Hk as [[Hi Hka]%andb_true_iff Hkb].
    apply String.eqb_eq in Hi. subst i'.
    destruct (Hint _ _ _ _ Hin) as [Hia Hib].
    rewrite <- (py_is_or_eq_int a a' Hka Hia), <- (py_is_or_eq_int b b' Hkb Hib).
    now apply Hsound.
  - destruct (_alu_dispatch instruction (VInt a) (VInt b)) as [r0|]; [| discriminate].
    destruct (list_setitem (registers s) _ r0); [| discriminate].
    now intros [= -> _ _].
Qed.

(** X11. MOD on integers is the remainder of the floor division: for a
    divisor [b] that is not zero the result [r] differs from [a] by a
    multiple of [b] and has the sign of [b], with [|r| < |b|]. *)
Theorem X11_mod_floor a b :
  b <> 0 ->
  exists r,
    mod_ (VInt a) (VInt b) = Ok (VInt r) /\
    (exists q, a = b * q + r) /\
    (0 < b -> 0 <= r < b) /\
    (b < 0 -> b < r <= 0).
Proof.
  intros Hb. exists (a mod b). unfold mod_. rewrite py_eq_int.
  replace (b =? 0) with false by lia. simpl.
  replace (b =? 0) with false by lia.
  split; [reflexivity |]. split; [| split].
  - exists (a / b). apply Z.div_mod. exact Hb.
  - intros H. apply Z.mod_pos_bound. exact H.
  - intros H. apply Z.mod_neg_bound. exact H.
Qed.

(** X12. What a returning call does to the cache and what it prints: a
    hit prints the hit line and leaves the cache untouched; a miss prints
    the miss line and appends exactly one item, the key with the result, to
    a cache that had no item for the key. *)
Theorem X12_hit_or_miss instruction reg_a_index reg_b_index dest_reg_index
    s val_a val_b r s' out :
  list_getitem (registers s) reg_a_index = Ok val_a ->
  list_getitem (registers s) reg_b_index = Ok val_b ->
  control_unit instruction reg_a_index reg_b_index dest_reg_index s = (Ok r, s', out) ->
  (dict_get (cache s) (instruction, val_a, val_b) = Some r /\
   out = [CacheHit instruction val_a val_b] /\ cache s' = cache s) \/
  (dict_get (cache s) (instruction, val_a, val_b) = None /\
   out = [CacheMiss instruction val_a val_b] /\
   cache s' = cache s ++ [((instruction, val_a, val_b), r)] /\
   _alu_dispatch instruction val_a val_b = Ok r).
Proof.
  intros Ha Hb. rewrite control_unit_eq, Ha, Hb.
  destruct (format_operands val_a val_b) as [[]|]; [| discriminate]. cbv zeta.
  destruct (dict_get (cache s) (instruction, val_a, val_b)) as [r0|] eqn:Hget.
  - destruct (list_setitem (registers s) _ r0); [| discriminate].
    intros [= -> <- <-]. left. auto.
  - destruct (_alu_dispatch instruction val_a val_b) as [r0|]; [| discriminate].
    destruct (list_setitem (registers s) _ r0); [| discriminate].
    intros [= -> <- <-]. right. simpl. rewrite dict_set_miss by exact Hget. auto.
Qed.

(** ** Integer machines *)

Lemma alu_dispatch_int_closed instruction a b r :
  instruction <> "DIV" -> instruction <> "POW" ->
  _alu_dispatch instruction (VInt a) (VInt b) = Ok r -> is_int r = true.
Proof.
  intros Hdiv Hpow. unfold _alu_dispatch.
  repeat match goal with
         | |- context [String.eqb instruction ?n] =>
             destruct (String.eqb_spec instruction n) as [-> | _]
         end; try congruence; try discriminate;
    try (intros [= <-]; reflexivity).
  unfold mod_. rewrite py_eq_int. destruct (b =? 0) eqn:E; [discriminate |].
  simpl. rewrite E. intros [= <-]. reflexivity.
Qed.

Lemma list_getitem_Forall (P : value -> Prop) l i v :
  Forall P l -> list_getitem l i = Ok v -> P v.
Proof.
  intros Hl H. apply list_getitem_Ok in H as (n & _ & Hn).
  exact (Forall_lookup_1 P l n v Hl Hn).
Qed.

Lemma list_setitem_Forall (P : value -> Prop) l i v l' :
  Forall P l -> P v -> list_setitem l i v = Ok l' -> Forall P l'.
Proof.
  intros Hl Hv. unfold list_setitem.
  destruct (list_index (length l) i); [| discriminate].
  intros [= <-]. now apply Forall_insert.
Qed.

Lemma dict_get_Forall (P : key * value -> Prop) d k v :
  Forall P d -> dict_get d k = Some v -> exists k', P (k', v).
Proof.
  intros Hd H. destruct (dict_get_elem d k v H) as (k' & Hin & _).
  exists k'. exact (proj1 (Forall_forall P d) Hd _ Hin).
Qed.

(** X13. Integer programs stay on integers: on a machine that holds only
    integers, loading an integer and calling [control_unit] with any
    instruction other than DIV and POW leave a machine that holds only
    integers, whether the call returns or raises. *)
Theorem X13_int_machine_closed s :
  int_machine s ->
  (forall reg_index n, int_machine (state_of (load reg_index (VInt n) s))) /\
  (forall instruction reg_a_index reg_b_index dest_reg_index,
     instruction <> "DIV" -> instruction <> "POW" ->
     int_machine (state_of (control_unit instruction reg_a_index reg_b_index
                              dest_reg_index s))).
Proof.
  intros [Hregs Hcache]. split.
  - intros i n. rewrite load_eq.
    destruct ((0 <=? i) && (i <? Z.of_nat (length (registers s))));
      [| split; assumption].
    split; [| exact Hcache]. now apply Forall_insert.
  - intros instruction ra rb dest Hdiv Hpow. rewrite control_unit_eq.
    destruct (list_getitem (registers s) ra) as [a|] eqn:Ha; [| split; assumption].
    destruct (list_getitem (registers s) rb) as [b|] eqn:Hb; [| split; assumption].
    destruct (format_operands a b) as [[]|]; [| split; assumption].
    cbv zeta.
    pose proof (list_getitem_Forall _ _ _ _ Hregs Ha) as Hia.
    pose proof (list_getitem_Forall _ _ _ _ Hregs Hb) as Hib.
    destruct (dict_get (cache s) (instruction, a, b)) as [r|] eqn:Hget.
    + destruct (dict_get_Forall _ _ _ _ Hcache Hget) as ([[i' a'] b'] & _ & _ & Hr).
      destruct (list_setitem (registers s) (target_reg ra dest) r) as [regs|] eqn:Hset;
        [| split; assumption].
      split; [| exact Hcache]. exact (list_setitem_Forall _ _ _ _ _ Hregs Hr Hset).
    + destruct (_alu_dispatch instruction a b) as [r|] eqn:Hr; [| split; assumption].
      assert (Hir : is_int r = true).
      { destruct a as [x| |]; try discriminate. destruct b as [y| |]; try discriminate.
        exact (alu_dispatch_int_closed instruction x y r Hdiv Hpow Hr). }
      assert (Hcache' : Forall int_item (dict_set (cache s) (instruction, a, b) r)).
      { rewrite dict_set_miss by exact Hget. apply Forall_app. split; [exact Hcache |].
        apply Forall_singleton. repeat split; assumption. }
      destruct (list_setitem (registers s) (target_reg ra dest) r) as [regs|] eqn:Hset;
        unfold state_of; simpl; (split; [| exact Hcache']); [| exact Hregs].
      exact (list_setitem_Forall _ _ _ _ _ Hregs Hir Hset).
Qed.

Lemma int_machine_int_keys s : int_machine s -> int_keys (cache s).
Proof.
  intros [_ Hcache] i a b r Hin.
  destruct (proj1 (Forall_forall int_item (cache s)) Hcache _ Hin) as (Ha & Hb & _).
  split; assumption.
Qed.

End Machine.

(** ** Runs on concrete machines *)

Lemma cpu_added_reachable : reachable c_overflow cpu_added.
Proof.
  exact (reach_control_unit c_overflow _ "ADD" 0 1 (Some 2)
           (reach_load c_overflow _ 1 (VInt 5)
              (reach_load c_overflow _ 0 (VInt 10) (reach_init c_overflow)))).
Qed.

Lemma XOR_not_dispatched : "XOR" ∉ dispatched.
Proof.
  unfold dispatched. intros H.
  repeat (apply elem_of_cons in H as [H | H]; [discriminate |]).
  inversion H.
Qed.



(** C4 on a fresh machine, whose register 1 holds 0. *)
Lemma C4_witness :
  reachable c_overflow CPU_init /\
  let outcome := control_unit c_overflow "DIV" 0 1 None CPU_init in
  (outcome.1.1 = Raise (ValueError "Can't divide by zero")
   <-> py_eq (VInt 0) (VInt 0) = true) /\
  (py_eq (VInt 0) (VInt 0) = true ->
   outcome = (Raise (ValueError "Can't divide by zero"), CPU_init,
              [CacheMiss "DIV" (VInt 0) (VInt 0)]) /\
   dict_get (cache CPU_init) ("DIV", VInt 0, VInt 0) = None).
Proof.
  split; [apply reach_init |].
  apply (C4_division_by_zero c_overflow "DIV" 0 1 None CPU_init (VInt 0) (VInt 0)).
  - apply reach_init.
  - left. reflexivity.
  - reflexivity.
  - reflexivity.
  - reflexivity.
Defined.

(** C4 as stated fails on an operand of 4301 digits: with 0 in register 1
    the call raises, but the error is that of the conversion of register 0
    to a string for the printed line. *)
Lemma C4_unprintable_operand :
  reachable c_overflow cpu_big /\
  list_getitem (registers cpu_big) 1 = Ok (VInt 0) /\
  py_eq (VInt 0) (VInt 0) = true /\
  control_unit c_overflow "DIV" 0 1 None cpu_big
  = (Raise (ValueError
              ("Exceeds the limit (4300 digits) for integer string conversion; "
               ++ "use sys.set_int_max_str_digits() to increase the limit")),
     cpu_big, []) /\
  (control_unit c_overflow "DIV" 0 1 None cpu_big).1.1
  <> Raise (ValueError "Can't divide by zero").
Proof.
  split; [exact (reach_load c_overflow _ 0 (VInt (10 ^ 4300)) (reach_init c_overflow)) |].
  split; [reflexivity |]. split; [reflexivity |].
  assert (H : control_unit c_overflow "DIV" 0 1 None cpu_big
              = (Raise (ValueError
                   ("Exceeds the limit (4300 digits) for integer string conversion; "
                    ++ "use sys.set_int_max_str_digits() to increase the limit")),
                 cpu_big, [])) by (vm_compute; reflexivity).
  split; [exact H |]. rewrite H. discriminate.
Qed.

(** C6 on the driver's first addition. *)
Lemma C6_witness :
  dict_wf (cache cpu_loaded) /\
  list_getitem (registers cpu_loaded) 0 = Ok (VInt 10) /\
  list_getitem (registers cpu_loaded) 1 = Ok (VInt 5) /\
  control_unit c_overflow "ADD" 0 1 (Some 2) cpu_loaded
    = (Ok (VInt 15), cpu_added, [CacheMiss "ADD" (VInt 10) (VInt 5)]) /\
  dict_count (cache cpu_added) ("ADD", VInt 10, VInt 5) = 1%nat /\
  dict_get (cache cpu_added) ("ADD", VInt 10, VInt 5) = Some (VInt 15) /\
  forall k, key_eqb k ("ADD", VInt 10, VInt 5) = false ->
            dict_get (cache cpu_added) k = dict_get (cache cpu_loaded) k.
Proof.
  split; [exact I |]. split; [reflexivity |]. split; [reflexivity |].
  split; [reflexivity |].
  apply (C6_cache_after_call c_overflow "ADD" 0 1 (Some 2) cpu_loaded
           (VInt 10) (VInt 5) (VInt 15) cpu_added
           [CacheMiss "ADD" (VInt 10) (VInt 5)]).
  - exact I.
  - reflexivity.
  - reflexivity.
  - reflexivity.
Defined.

(** C7 on the instruction XOR. *)
Lemma C7_witness :
  reachable c_overflow cpu_added /\
  ("XOR" ∉ dispatched) /\
  exists e out,
    control_unit c_overflow "XOR" 0 1 None cpu_added = (Raise e, cpu_added, out) /\
    forall val_a val_b,
      list_getitem (registers cpu_added) 0 = Ok val_a ->
      list_getitem (registers cpu_added) 1 = Ok val_b ->
      format_operands c_overflow val_a val_b = Ok tt ->
      e = ValueError ("Unknown instruction: " ++ "XOR") /\
      out = [CacheMiss "XOR" val_a val_b].
Proof.
  split; [exact cpu_added_reachable |]. split; [exact XOR_not_dispatched |].
  apply (C7_unknown_instruction c_overflow "XOR" 0 1 None cpu_added).
  - exact cpu_added_reachable.
  - exact XOR_not_dispatched.
Defined.

(** C7 as stated fails on an operand of 4301 digits: the call with the
    unknown instruction XOR raises the error of the conversion of
    register 0 to a string, and prints nothing. *)
Lemma C7_unprintable_operand :
  reachable c_overflow cpu_big /\
  ("XOR" ∉ dispatched) /\
  control_unit c_overflow "XOR" 0 1 None cpu_big
  = (Raise (ValueError
              ("Exceeds the limit (4300 digits) for integer string conversion; "
               ++ "use sys.set_int_max_str_digits() to increase the limit")),
     cpu_big, []) /\
  (control_unit c_overflow "XOR" 0 1 None cpu_big).1.1
  <> Raise (ValueError "Unknown instruction: XOR").
Proof.
  split; [exact (reach_load c_overflow _ 0 (VInt (10 ^ 4300)) (reach_init c_overflow)) |].
  split; [exact XOR_not_dispatched |].
  assert (H : control_unit c_overflow "XOR" 0 1 None cpu_big
              = (Raise (ValueError
                   ("Exceeds the limit (4300 digits) for integer string conversion; "
                    ++ "use sys.set_int_max_str_digits() to increase the limit")),
                 cpu_big, [])) by (vm_compute; reflexivity).
  split; [exact H |]. rewrite H. discriminate.
Qed.

(** C8 on an addition without a destination. *)
Lemma C8_witness :
  let s' := mkCPU [VInt 15; VInt 5; VInt 0; VInt 0]
              [(("ADD", VInt 10, VInt 5), VInt 15)] in
  control_unit c_overflow "ADD" 0 1 None cpu_loaded
    = (Ok (VInt 15), s', [CacheMiss "ADD" (VInt 10) (VInt 5)]) /\
  ((None : option Z) = None -> list_getitem (registers s') 0 = Ok (VInt 15)) /\
  list_getitem (registers s') (target_reg 0 None) = Ok (VInt 15) /\
  forall j,
    list_index (length (registers cpu_loaded)) j
      <> list_index (length (registers cpu_loaded)) (target_reg 0 None) ->
    list_getitem (registers s') j = list_getitem (registers cpu_loaded) j.
Proof.
  intros s'. split; [reflexivity |].
  apply (C8_destination_and_frame c_overflow "ADD" 0 1 None cpu_loaded (VInt 15) s'
           [CacheMiss "ADD" (VInt 10) (VInt 5)]).
  reflexivity.
Defined.

(** C9 on the division of 7 by 2, which is the float 3.5. *)
Lemma C9_witness :
  py_eq (VInt 2) (VInt 0) = false /\
  (Qabs (inject_Z 7 / inject_Z 2) < 2 ^ 1024 - 2 ^ 970)%Q /\
  binary64 (inject_Z 7 / inject_Z 2) /\
  div c_overflow (VInt 7) (VInt 2)
  = Ok (VFloat (Result OpTrueDiv (VInt 7) (VInt 2))
          (S754_finite false 7881299347898368 (-51))) /\
  is_rounding (inject_Z 7 / inject_Z 2) (S754_finite false 7881299347898368 (-51)) /\
  is_exact_quotient 7 2 (div c_overflow (VInt 7) (VInt 2)).
Proof.
  assert (Hlt : (Qabs (inject_Z 7 / inject_Z 2) < 2 ^ 1024 - 2 ^ 970)%Q)
    by (vm_compute; reflexivity).
  assert (Hq : binary64 (inject_Z 7 / inject_Z 2)).
  { exists 7, (-1). split; [reflexivity |]. split; [lia | reflexivity]. }
  split; [reflexivity |]. split; [exact Hlt |]. split; [exact Hq |].
  split; [reflexivity |].
  destruct (C9_div_true_division c_overflow (VInt 7) (VInt 2) eq_refl eq_refl eq_refl)
    as (_ & Hints & _).
  destruct (Hints 7 2 eq_refl eq_refl) as [Hok _].
  destruct (Hok Hlt) as (f & Hf & Hr & _ & Hex).
  split; [| exact (Hex Hq)].
  assert (E : div c_overflow (VInt 7) (VInt 2)
              = Ok (VFloat (Result OpTrueDiv (VInt 7) (VInt 2))
                      (S754_finite false 7881299347898368 (-51)))) by reflexivity.
  rewrite E in Hf. injection Hf as <-. exact Hr.
Defined.

(** C9 as stated fails: the float that DIV of 1 by 3 yields is not 1/3. *)
Lemma C9_div_1_3_not_exact :
  div c_overflow (VInt 1) (VInt 3)
  = Ok (VFloat (Result OpTrueDiv (VInt 1) (VInt 3))
          (S754_finite false 6004799503160661 (-54))) /\
  ~ is_exact_quotient 1 3 (div c_overflow (VInt 1) (VInt 3)).
Proof.
  split; [reflexivity |].
  intros (v & q & Hv & Hq & Heq).
  vm_compute in Hv. injection Hv as <-.
  simpl in Hq. injection Hq as <-.
  vm_compute in Heq. discriminate.
Qed.

(** The two roundings of a division with a float operand: [2 ** 53 + 1]
    divided by the integer 3 is 3002399751580331.0, the float nearest to
    the quotient, and divided by the float 3.0 it is 3002399751580330.5,
    the integer being rounded to [2 ** 53] first. *)
Lemma div_float_operand_rounds_twice :
  div c_overflow (VInt (2 ^ 53 + 1)) (VInt 3)
  = Ok (VFloat (Result OpTrueDiv (VInt (2 ^ 53 + 1)) (VInt 3))
          (S754_finite false 6004799503160662 (-1))) /\
  int_to_float (2 ^ 53 + 1) = Ok (S754_finite false 4503599627370496 1) /\
  div c_overflow (VInt (2 ^ 53 + 1))
    (VFloat (Loaded 0) (S754_finite false 6755399441055744 (-51)))
  = Ok (VFloat (Result OpTrueDiv (VInt (2 ^ 53 + 1))
                  (VFloat (Loaded 0) (S754_finite false 6755399441055744 (-51))))
          (S754_finite false 6004799503160661 (-1))).
Proof. repeat split; vm_compute; reflexivity. Qed.

(** C10 on the driver's machine after its first addition. *)
Lemma C10_witness :
  reachable c_overflow cpu_added /\
  "ADD" ∈ dispatched /\
  _alu_dispatch c_overflow "ADD" (VInt 10) (VInt 5) = Ok (VInt 15).
Proof.
  split; [exact cpu_added_reachable |].
  apply (C10_cache_consistent c_overflow cpu_added "ADD" (VInt 10) (VInt 5) (VInt 15)).
  - exact cpu_added_reachable.
  - left.
Defined.

(** A NaN as an operand is a key by the identity of its object: the call
    repeated on the register that holds the object is a hit, and the call
    on another NaN object is a miss that adds a second item. *)
Lemma nan_keys_by_identity :
  let nan1 := VFloat (Loaded 0) S754_nan in
  let nan2 := VFloat (Loaded 1) S754_nan in
  let first := control_unit c_overflow "ADD" 0 1 (Some 2) (state_of (load 0 nan1 CPU_init)) in
  let again := control_unit c_overflow "ADD" 0 1 (Some 2) (state_of first) in
  let other :=
    control_unit c_overflow "ADD" 0 1 (Some 2) (state_of (load 0 nan2 (state_of again))) in
  first.2 = [CacheMiss "ADD" nan1 (VInt 0)] /\
  again.2 = [CacheHit "ADD" nan1 (VInt 0)] /\
  other.2 = [CacheMiss "ADD" nan2 (VInt 0)] /\
  length (cache (state_of first)) = 1%nat /\
  length (cache (state_of again)) = 1%nat /\
  length (cache (state_of other)) = 2%nat.
Proof. repeat split. Qed.

(** ** Runs of the further properties *)

Lemma cpu_added_int_machine : int_machine cpu_added.
Proof.
  split.
  - repeat constructor.
  - repeat constructor.
Qed.

Lemma cpu_float_loaded_reaches : reaches c_overflow cpu_added cpu_float_loaded.
Proof.
  exact (reaches_load c_overflow cpu_added _ 3 (VFloat (Loaded 0) float_ten)
           (reaches_refl c_overflow cpu_added)).
Qed.

(** X1 on a fresh machine: 7 loaded into register 2. *)
Lemma X1_witness :
  0 <= 2 < Z.of_nat (length (registers CPU_init)) /\
  exists s',
    load 2 (VInt 7) CPU_init = (Ok tt, s', []) /\
    get_register 2 s' = (Ok (VInt 7), s', []) /\
    cache s' = cache CPU_init /\
    forall j, j <> 2 -> (get_register j s').1.1 = (get_register j CPU_init).1.1.
Proof.
  split; [simpl; lia |].
  apply (X1_load_get_register CPU_init 2 (VInt 7)). simpl. lia.
Defined.

(** X2 on the driver's machine, with the indices 1 and 4. *)
Lemma X2_witness :
  reachable c_overflow cpu_added /\
  ((exists s', load 1 (VInt 7) cpu_added = (Ok tt, s', [])) /\
   (exists x, get_register 1 cpu_added = (Ok x, cpu_added, []))) /\
  (load 4 (VInt 7) cpu_added
     = (Raise (ValueError "Invalid register index"), cpu_added, []) /\
   get_register 4 cpu_added
     = (Raise (ValueError "Invalid register index"), cpu_added, [])).
Proof.
  split; [exact cpu_added_reachable |]. split.
  - apply (X2_index_validation c_overflow cpu_added 1 (VInt 7) cpu_added_reachable).
    lia.
  - apply (X2_index_validation c_overflow cpu_added 4 (VInt 7) cpu_added_reachable).
    lia.
Defined.

(** X3 on the driver's machine. *)
Lemma X3_witness :
  reachable c_overflow cpu_added /\ length (registers cpu_added) = 4%nat.
Proof.
  split; [exact cpu_added_reachable |].
  apply (X3_four_registers c_overflow cpu_added). exact cpu_added_reachable.
Defined.

(** X4 on a division by zero on a fresh machine. *)
Lemma X4_witness :
  control_unit c_overflow "DIV" 0 1 None CPU_init
    = (Raise (ValueError "Can't divide by zero"), CPU_init,
       [CacheMiss "DIV" (VInt 0) (VInt 0)]) /\
  registers CPU_init = registers CPU_init /\
  (list_index (length (registers CPU_init)) (target_reg 0 None) <> None ->
   CPU_init = CPU_init).
Proof.
  split; [reflexivity |].
  apply (X4_failure_frame c_overflow "DIV" 0 1 None CPU_init
           (ValueError "Can't divide by zero") CPU_init
           [CacheMiss "DIV" (VInt 0) (VInt 0)]).
  reflexivity.
Defined.

(** X5 on the driver's cached addition, after a further load. *)
Lemma X5_witness :
  reaches c_overflow cpu_added cpu_float_loaded /\
  dict_get (cache cpu_added) ("ADD", VInt 10, VInt 5) = Some (VInt 15) /\
  dict_get (cache cpu_float_loaded) ("ADD", VInt 10, VInt 5) = Some (VInt 15).
Proof.
  split; [exact cpu_float_loaded_reaches |]. split; [reflexivity |].
  apply (X5_cache_items_persist c_overflow cpu_added cpu_float_loaded
           ("ADD", VInt 10, VInt 5) (VInt 15)).
  - exact cpu_float_loaded_reaches.
  - reflexivity.
Defined.

(** X6 on the driver's repeated addition. *)
Lemma X6_witness :
  reachable c_overflow cpu_added /\
  control_unit c_overflow "ADD" 0 1 (Some 2) cpu_added
    = (Ok (VInt 15), cpu_added, [CacheHit "ADD" (VInt 10) (VInt 5)]) /\
  exists a b,
    py_is_or_eq (VInt 10) a = true /\ py_is_or_eq (VInt 5) b = true /\
    _alu_dispatch c_overflow "ADD" a b = Ok (VInt 15).
Proof.
  split; [exact cpu_added_reachable |]. split; [reflexivity |].
  apply (X6_memoisation_sound c_overflow "ADD" 0 1 (Some 2) cpu_added
           (VInt 10) (VInt 5) (VInt 15) cpu_added
           [CacheHit "ADD" (VInt 10) (VInt 5)]).
  - exact cpu_added_reachable.
  - reflexivity.
  - reflexivity.
  - reflexivity.
Defined.

(** X7 on the driver's repeated addition. *)
Lemma X7_witness :
  reachable c_overflow cpu_added /\
  int_keys (cache cpu_added) /\
  _alu_dispatch c_overflow "ADD" (VInt 10) (VInt 5) = Ok (VInt 15).
Proof.
  split; [exact cpu_added_reachable |].
  split; [exact (int_machine_int_keys cpu_added cpu_added_int_machine) |].
  apply (X7_memoisation_exact_on_ints c_overflow "ADD" 0 1 (Some 2) cpu_added
           10 5 (VInt 15) cpu_added [CacheHit "ADD" (VInt 10) (VInt 5)]).
  - exact cpu_added_reachable.
  - exact (int_machine_int_keys cpu_added cpu_added_int_machine).
  - reflexivity.
  - reflexivity.
  - reflexivity.
Defined.

(** X8 on the driver's first addition. *)
Lemma X8_witness :
  control_unit c_overflow "ADD" 0 1 (Some 2) cpu_loaded
    = (Ok (VInt 15), cpu_added, [CacheMiss "ADD" (VInt 10) (VInt 5)]) /\
  get_register (target_reg 0 (Some 2)) cpu_added = (Ok (VInt 15), cpu_added, []).
Proof.
  split; [reflexivity |].
  apply (X8_result_readable c_overflow "ADD" 0 1 (Some 2) cpu_loaded (VInt 15)
           cpu_added [CacheMiss "ADD" (VInt 10) (VInt 5)]).
  - reflexivity.
  - simpl. lia.
Defined.


(** X11 on -7 modulo 2 and 7 modulo -2. *)
Lemma X11_witness :
  2 <> 0 /\
  exists r,
    mod_ c_overflow (VInt (-7)) (VInt 2) = Ok (VInt r) /\
    (exists q, -7 = 2 * q + r) /\
    (0 < 2 -> 0 <= r < 2) /\
    (2 < 0 -> 2 < r <= 0).
Proof.
  split; [lia |].
  apply (X11_mod_floor c_overflow (-7) 2). lia.
Defined.

(** X12 on the driver's first addition. *)
Lemma X12_witness :
  control_unit c_overflow "ADD" 0 1 (Some 2) cpu_loaded
    = (Ok (VInt 15), cpu_added, [CacheMiss "ADD" (VInt 10) (VInt 5)]) /\
  ((dict_get (cache cpu_loaded) ("ADD", VInt 10, VInt 5) = Some (VInt 15) /\
    [CacheMiss "ADD" (VInt 10) (VInt 5)] = [CacheHit "ADD" (VInt 10) (VInt 5)] /\
    cache cpu_added = cache cpu_loaded) \/
   (dict_get (cache cpu_loaded) ("ADD", VInt 10, VInt 5) = None /\
    [CacheMiss "ADD" (VInt 10) (VInt 5)] = [CacheMiss "ADD" (VInt 10) (VInt 5)] /\
    cache cpu_added = cache cpu_loaded ++ [(("ADD", VInt 10, VInt 5), VInt 15)] /\
    _alu_dispatch c_overflow "ADD" (VInt 10) (VInt 5) = Ok (VInt 15))).
Proof.
  split; [reflexivity |].
  apply (X12_hit_or_miss c_overflow "ADD" 0 1 (Some 2) cpu_loaded (VInt 10) (VInt 5)
           (VInt 15) cpu_added [CacheMiss "ADD" (VInt 10) (VInt 5)]).
  - reflexivity.
  - reflexivity.
  - reflexivity.
Defined.

(** X13 on the driver's machine. *)
Lemma X13_witness :
  int_machine cpu_added /\
  (forall reg_index n, int_machine (state_of (load reg_index (VInt n) cpu_added))) /\
  (forall instruction reg_a_index reg_b_index dest_reg_index,
     instruction <> "DIV" -> instruction <> "POW" ->
     int_machine (state_of (control_unit c_overflow instruction reg_a_index
                              reg_b_index dest_reg_index cpu_added))).
Proof.
  split; [exact cpu_added_int_machine |].
  apply (X13_int_machine_closed c_overflow cpu_added). exact cpu_added_int_machine.
Defined.
